(** * rfx: type-to-name resolution — normalizer, registry, reflective
      fallback and the global snapshot state machine.

    The development follows the Go packages of the repository:
    - [apis] / [config]      : the [Config] value and its defaults;
    - [utils/reflect]        : [Normalize];
    - [registry]             : [Register], [Lookup], [Entries], [Count], [Reset];
    - [strategy]             : the reflective fallback with its memoization cache;
    - [rfx] (package root)   : the atomically published [state] snapshot and
                               its writers ([SetConfig], [SetRegistry], ...).

    Go values are modelled as follows.  A Go [int] is a [Z]; a Go [string] is
    a [string]; a nilable interface value is an [option]; a function returning
    [(T, error)] returns a [result]; a [sync.Map] is a [gmap]; code that
    mutates an object takes the object and returns the new one. *)

From Stdlib Require Import ZArith Lia Bool Ascii String.
From stdpp Require Import base decidable countable strings list gmap fin_maps.

Local Open Scope string_scope.
Local Open Scope list_scope.
Local Open Scope Z_scope.

(** ** Sentinel errors *)

(** The package-level [errors.New] values of [utils/reflect], [registry] and
    the root package. *)
Inductive error : Type :=
| ErrReflectNilType
| ErrReflectTypeNotNamed
| ErrNilType
| ErrEmptyName
| ErrConflictingRegistration
| ErrNilRegistry
| ErrNilResolver.

#[global] Instance error_eq_dec : EqDecision error.
Proof. solve_decision. Defined.

(** A Go result [(T, error)] with exactly one side set. *)
Inductive result (A : Type) : Type :=
| Ok (a : A)
| Err (e : error).
Arguments Ok {A} a.
Arguments Err {A} e.

(** ** apis.Config and package config *)

Record Config : Type := mkConfig {
  IncludeBuiltins : bool;
  MaxUnwrap : Z;
  MapPreferElem : bool
}.

#[global] Instance Config_eq_dec : EqDecision Config.
Proof. solve_decision. Defined.

Definition DefaultIncludeBuiltins : bool := true.
Definition DefaultMaxUnwrap : Z := 8.
Definition DefaultMapPreferElem : bool := true.

Definition DefaultConfig : Config :=
  {| IncludeBuiltins := DefaultIncludeBuiltins;
     MaxUnwrap := DefaultMaxUnwrap;
     MapPreferElem := DefaultMapPreferElem |}.

(** *** Functional options *)

Module config.

(** [Option], a function that mutates the config it is given through a
    pointer: it takes the config it is applied to and returns it as it
    leaves it. *)
Definition Option : Type := Config -> Config.

Definition WithIncludeBuiltins (include : bool) : Option :=
  fun c =>
    {| IncludeBuiltins := include;
       MaxUnwrap := MaxUnwrap c;
       MapPreferElem := MapPreferElem c |}.

Definition WithMaxUnwrap (max : Z) : Option :=
  fun c =>
    if max <? 0
    then {| IncludeBuiltins := IncludeBuiltins c;
            MaxUnwrap := DefaultMaxUnwrap;
            MapPreferElem := MapPreferElem c |}
    else {| IncludeBuiltins := IncludeBuiltins c;
            MaxUnwrap := max;
            MapPreferElem := MapPreferElem c |}.

Definition WithMapPreferElem (prefer : bool) : Option :=
  fun c =>
    {| IncludeBuiltins := IncludeBuiltins c;
       MaxUnwrap := MaxUnwrap c;
       MapPreferElem := prefer |}.

(** [NewConfig(opts...)]: the options applied in order to the default, then
    the guard on a negative [MaxUnwrap]. *)
Definition NewConfig (opts : list Option) : Config :=
  let cfg := foldl (fun c opt => opt c) DefaultConfig opts in
  if MaxUnwrap cfg <? 0
  then {| IncludeBuiltins := IncludeBuiltins cfg;
          MaxUnwrap := DefaultMaxUnwrap;
          MapPreferElem := MapPreferElem cfg |}
  else cfg.

End config.

(** ** reflect.Type descriptors *)

(** The four kinds [Normalize] unwraps through [Elem()]. *)
Inductive ElemKind : Type := Ptr | Slice | Array | Chan.

(** [reflect.Kind], as far as [Normalize] distinguishes kinds. *)
Inductive Kind : Type :=
| KPtr | KSlice | KArray | KChan | KMap
| KOther.  (* struct, interface, func, int, string, ... *)

(** A non-nil [reflect.Type].  Every descriptor carries its [Name()] (empty
    for a type that is not a defined type) and its [PkgPath()] (empty for
    predeclared and for non-defined types).  [TElem] is a pointer, slice,
    array or channel type with its [Elem()]; [TMap] is a map type with its
    [Key()] and [Elem()]; [TOther] is any other kind.  A defined type whose
    underlying type is a container (`type Ids []int`) is a [TElem] or [TMap]
    with a non-empty name.  Array lengths and channel directions play no part
    in the code under study and are left out. *)
Inductive rtype : Type :=
| TOther (name pkgPath : string)
| TElem (k : ElemKind) (name pkgPath : string) (elem : rtype)
| TMap (name pkgPath : string) (key elem : rtype).

Definition Name (t : rtype) : string :=
  match t with
  | TOther n _ | TElem _ n _ _ | TMap n _ _ _ => n
  end.

Definition PkgPath (t : rtype) : string :=
  match t with
  | TOther _ p | TElem _ _ p _ | TMap _ p _ _ => p
  end.

Definition kind_of (t : rtype) : Kind :=
  match t with
  | TOther _ _ => KOther
  | TElem Ptr _ _ _ => KPtr
  | TElem Slice _ _ _ => KSlice
  | TElem Array _ _ _ => KArray
  | TElem Chan _ _ _ => KChan
  | TMap _ _ _ _ => KMap
  end.

(** [t.Elem()] and [t.Key()]; [None] where the Go method panics. *)
Definition Elem (t : rtype) : option rtype :=
  match t with
  | TElem _ _ _ et | TMap _ _ _ et => Some et
  | TOther _ _ => None
  end.

Definition Key (t : rtype) : option rtype :=
  match t with
  | TMap _ _ kt _ => Some kt
  | _ => None
  end.

(** The descriptors found inside a descriptor by [Elem()] and [Key()]. *)
Inductive part_of : rtype -> rtype -> Prop :=
| part_self t : part_of t t
| part_elem t et s : Elem t = Some et -> part_of s et -> part_of s t
| part_key t kt s : Key t = Some kt -> part_of s kt -> part_of s t.

(** [t.Name() != ""]. *)
Definition named (t : rtype) : bool := negb (String.eqb (Name t) "").

(** The composite types the Go type constructors build: `*T`, `[]T`, `[n]T`,
    `chan T` and `map[K]V` are not defined types, so they have no name and no
    package path. *)
Definition wrap (k : ElemKind) (t : rtype) : rtype := TElem k "" "" t.
Definition map_of (kt et : rtype) : rtype := TMap "" "" kt et.

(** [wraps ks t] applies the constructors of [ks], the head outermost. *)
Fixpoint wraps (ks : list ElemKind) (t : rtype) : rtype :=
  match ks with
  | [] => t
  | k :: ks' => wrap k (wraps ks' t)
  end.

#[global] Instance ElemKind_eq_dec : EqDecision ElemKind.
Proof. solve_decision. Defined.

#[global] Instance rtype_eq_dec : EqDecision rtype.
Proof. solve_decision. Defined.

Definition ElemKind_code (k : ElemKind) : nat :=
  match k with Ptr => 1 | Slice => 2 | Array => 3 | Chan => 4 end%nat.

Fixpoint rtype_encode (t : rtype) : gen_tree string :=
  match t with
  | TOther n p => GenNode 0 [GenLeaf n; GenLeaf p]
  | TElem k n p e => GenNode (ElemKind_code k) [GenLeaf n; GenLeaf p; rtype_encode e]
  | TMap n p kt et => GenNode 5 [GenLeaf n; GenLeaf p; rtype_encode kt; rtype_encode et]
  end.

Fixpoint rtype_decode (g : gen_tree string) : rtype :=
  match g with
  | GenNode 0 [GenLeaf n; GenLeaf p] => TOther n p
  | GenNode 1 [GenLeaf n; GenLeaf p; e] => TElem Ptr n p (rtype_decode e)
  | GenNode 2 [GenLeaf n; GenLeaf p; e] => TElem Slice n p (rtype_decode e)
  | GenNode 3 [GenLeaf n; GenLeaf p; e] => TElem Array n p (rtype_decode e)
  | GenNode 4 [GenLeaf n; GenLeaf p; e] => TElem Chan n p (rtype_decode e)
  | GenNode 5 [GenLeaf n; GenLeaf p; kt; et] => TMap n p (rtype_decode kt) (rtype_decode et)
  | _ => TOther "" ""
  end.

#[global] Instance rtype_countable : Countable rtype.
Proof.
  refine (inj_countable' rtype_encode rtype_decode _).
  intros t; induction t as [n p | k n p e IH | n p kt IHk et IHe]; simpl.
  - reflexivity.
  - destruct k; simpl; rewrite IH; reflexivity.
  - rewrite IHk, IHe; reflexivity.
Defined.

(** ** utils/reflect.Normalize *)

(** The body of the [for i := 0; t != nil && i < maxUnwrap; i++] loop together
    with the check that follows it, started at counter [i] on descriptor [t].
    Every iteration either returns or replaces [t] by its [Elem()], so the
    recursion is structural in [t]; [Elem()] and [Key()] of a real descriptor
    are never nil, so the [!= nil] tests of the source always pass. *)
Fixpoint unwrap_from (maxUnwrap : Z) (preferElem : bool) (i : Z) (t : rtype)
  : result rtype :=
  if i <? maxUnwrap then
    match t with
    | TElem _ _ _ et =>
        unwrap_from maxUnwrap preferElem (i + 1) et
    | TMap _ _ kt et =>
        if preferElem then
          if named et then Ok et
          else if named kt then Ok kt
          else unwrap_from maxUnwrap preferElem (i + 1) et
        else
          if named kt then Ok kt
          else if named et then Ok et
          else unwrap_from maxUnwrap preferElem (i + 1) et
    | TOther _ _ =>
        if named t then Ok t else Err ErrReflectTypeNotNamed
    end
  else
    if named t then Ok t else Err ErrReflectTypeNotNamed.

Definition Normalize (t : option rtype) (cfg : Config) : result rtype :=
  match t with
  | None => Err ErrReflectNilType
  | Some t =>
      let maxUnwrap := MaxUnwrap cfg in
      let maxUnwrap := if maxUnwrap <=? 0 then DefaultMaxUnwrap else maxUnwrap in
      let preferElem := MapPreferElem cfg in
      unwrap_from maxUnwrap preferElem 0 t
  end.

(** The unwrap budget [Normalize] works with: [MaxUnwrap], or the default
    when that is not positive. *)
Definition budget (cfg : Config) : Z :=
  if MaxUnwrap cfg <=? 0 then DefaultMaxUnwrap else MaxUnwrap cfg.

(** ** Package registry *)

Module registry.

(** The [registry] struct: the normalization config, the [sync.Map] from
    normalized type to name, and the entry counter (a Go [int], far from
    overflow at one increment per stored entry).  The mutex has no
    sequential content.  A method with receiver [r *registry] that mutates
    it returns the new value of [*r]. *)
Record registry : Type := mkRegistry {
  cfg : Config;
  m : gmap rtype string;
  count : Z
}.

(** [apis.Entry]. *)
Record Entry : Type := mkEntry {
  Type_ : rtype;
  Name_ : string
}.

Definition New (c : Config) : registry :=
  let c :=
    if MaxUnwrap c <=? 0
    then {| IncludeBuiltins := IncludeBuiltins c;
            MaxUnwrap := DefaultMaxUnwrap;
            MapPreferElem := MapPreferElem c |}
    else c in
  {| cfg := c; m := ∅; count := 0 |}.

(** [Register] returns its [error] ([None] is Go's nil) and the registry as
    the call leaves it.  The lock-free check and the re-check under the
    mutex are both kept, in the order of the source. *)
Definition Register (t : option rtype) (name : string) (r : registry)
  : option error * registry :=
  match t with
  | None => (Some ErrNilType, r)
  | Some _ =>
      if String.eqb name "" then (Some ErrEmptyName, r)
      else
        match Normalize t (cfg r) with
        | Err e => (Some e, r)
        | Ok b =>
            match m r !! b with
            | Some old =>
                if String.eqb old name then (None, r)
                else (Some ErrConflictingRegistration, r)
            | None =>
                (* r.mu.Lock() *)
                match m r !! b with
                | Some old =>
                    if String.eqb old name then (None, r)
                    else (Some ErrConflictingRegistration, r)
                | None =>
                    (None, {| cfg := cfg r;
                              m := <[b := name]> (m r);
                              count := count r + 1 |})
                end
            end
        end
  end.

Definition Lookup (t : option rtype) (r : registry) : string * bool :=
  match t with
  | None => ("", false)
  | Some _ =>
      match Normalize t (cfg r) with
      | Err _ => ("", false)
      | Ok nt =>
          match m r !! nt with
          | Some v => (v, true)
          | None => ("", false)
          end
      end
  end.

(** [Entries] ranges over the map; the order of [sync.Map.Range] is
    unspecified and [map_to_list] fixes one. *)
Definition Entries (r : registry) : list Entry :=
  (fun kv => {| Type_ := kv.1; Name_ := kv.2 |}) <$> map_to_list (m r).

Definition Count (r : registry) : Z := count r.

Definition Reset (r : registry) : registry :=
  {| cfg := cfg r; m := ∅; count := 0 |}.

(** A call of a method of [apis.Registry] on a [*registry], with what it
    returns and the registry as the call leaves it. *)
Inductive method : Type :=
| CallRegister (t : option rtype) (name : string)
| CallLookup (t : option rtype)
| CallEntries
| CallCount
| CallReset.

Inductive answer : Type :=
| RetRegister (err : option error)
| RetLookup (name : string) (ok : bool)
| RetEntries (es : list Entry)
| RetCount (n : Z)
| RetReset.

Definition call (c : method) (r : registry) : answer * registry :=
  match c with
  | CallRegister t name =>
      let '(e, r') := Register t name r in (RetRegister e, r')
  | CallLookup t =>
      let '(name, ok) := Lookup t r in (RetLookup name ok, r)
  | CallEntries => (RetEntries (Entries r), r)
  | CallCount => (RetCount (Count r), r)
  | CallReset => (RetReset, Reset r)
  end.

(** The registries a program can hold: made by [New], then changed by
    method calls only. *)
Inductive built : registry -> Prop :=
| built_New c : built (New c)
| built_call c r : built r -> built (call c r).2.

(** What holds of every registry a program can hold. *)
Definition registry_ok (r : registry) : Prop :=
  count r = Z.of_nat (size (m r)) /\
  (forall k x, m r !! k = Some x -> named k = true /\ x <> "") /\
  1 <= MaxUnwrap (cfg r).

(** Every registered type of [r] is of a kind [Normalize] does not
    unwrap. *)
Definition plain_keys (r : registry) : Prop :=
  forall k x, m r !! k = Some x -> kind_of k = KOther.

End registry.

(** ** Go library functions used by package strategy *)

(** [strings.IndexByte]: index of the first [c] in [s], or [-1]. *)
Fixpoint IndexByte (s : string) (c : ascii) : Z :=
  match s with
  | EmptyString => -1
  | String a s' =>
      if Ascii.eqb a c then 0
      else let i := IndexByte s' c in if i <? 0 then -1 else i + 1
  end.

(** Index of the last [c] in [s], or [-1]. *)
Fixpoint LastIndexByte (s : string) (c : ascii) : Z :=
  match s with
  | EmptyString => -1
  | String a s' =>
      let i := LastIndexByte s' c in
      if 0 <=? i then i + 1 else if Ascii.eqb a c then 0 else -1
  end.

(** The slice expressions [s[:i]] and [s[i:]]. *)
Definition slice_to (s : string) (i : Z) : string := substring 0 (Z.to_nat i) s.
Definition slice_from (s : string) (i : Z) : string :=
  substring (Z.to_nat i) (String.length s - Z.to_nat i) s.

(** The loop of [path.Base] that drops trailing slashes; [fuel] bounds the
    number of iterations by the length of the path. *)
Fixpoint trim_slashes (fuel : nat) (p : string) : string :=
  match fuel with
  | O => p
  | S fuel' =>
      let n := String.length p in
      match String.get (n - 1) p with
      | Some c =>
          if (0 <? n)%nat && Ascii.eqb c "/"
          then trim_slashes fuel' (substring 0 (n - 1) p)
          else p
      | None => p
      end
  end.

(** [path.Base]: the last element of a slash-separated path. *)
Definition Base (p : string) : string :=
  if String.eqb p "" then "."
  else
    let p := trim_slashes (String.length p) p in
    let i := LastIndexByte p "/" in
    let p := if 0 <=? i then slice_from p (i + 1) else p in
    if String.eqb p "" then "/" else p.

(** The conversion [int16(x)] of a Go [int]: the low 16 bits, read as a
    signed number. *)
Definition int16 (x : Z) : Z := (x + 32768) mod 65536 - 32768.

(** The values [int16] keeps. *)
Definition fits_int16 (x : Z) : Prop := -32768 <= x < 32768.

(** ** Package strategy: the reflective fallback *)

Module strategy.

(** A non-nil value of static type [any]: its dynamic type
    ([reflect.TypeOf]) and, when that type implements [apis.Namer], the
    string its [EntityName()] returns.  A nil [any] is [None]. *)
Record value : Type := mkValue {
  TypeOf : rtype;
  EntityName : option string
}.

Record cacheKey : Type := mkCacheKey {
  t : option rtype;
  includeBuiltin : bool;
  maxUnwrap : Z;   (* int16 *)
  mapPreferElem : bool
}.

#[global] Instance cacheKey_eq_dec : EqDecision cacheKey.
Proof. solve_decision. Defined.

#[global] Instance cacheKey_countable : Countable cacheKey.
Proof.
  refine (inj_countable'
            (fun k => (t k, includeBuiltin k, maxUnwrap k, mapPreferElem k))
            (fun p => match p with (a, b, c, d) => mkCacheKey a b c d end) _).
  intros [a b c d]; reflexivity.
Defined.

(** The package variable [typeNameCache], a [sync.Map] from [cacheKey] to
    [string], is passed in and returned by the functions that use it. *)
Abbreviation cache := (gmap cacheKey string).

Definition stripTypeParams (s : string) : string :=
  let i := IndexByte s "[" in
  if 0 <=? i then slice_to s i else s.

Definition byType (ty : option rtype) (cfg : Config) (c : cache)
  : string * cache :=
  let key := {| t := ty;
                includeBuiltin := IncludeBuiltins cfg;
                maxUnwrap := int16 (MaxUnwrap cfg);
                mapPreferElem := MapPreferElem cfg |} in
  match c !! key with
  | Some v => (v, c)
  | None =>
      match Normalize ty cfg with
      | Err _ => ("", <[key := ""]> c)
      | Ok base =>
          let name := stripTypeParams (Name base) in
          let p := PkgPath base in
          let name :=
            if negb (String.eqb p "") then Base p +:+ "." +:+ name
            else if negb (IncludeBuiltins cfg) then ""
            else name in
          (name, <[key := name]> c)
      end
  end.

(** [reflectStrategy.TryResolve] and [TryResolveType]: the name, the
    [handled] flag, and the cache afterwards. *)
Definition TryResolve (v : option value) (cfg : Config) (c : cache)
  : string * bool * cache :=
  match v with
  | None => ("", false, c)
  | Some x =>
      let '(name, c') := byType (Some (TypeOf x)) cfg c in
      (name, true, c')
  end.

Definition TryResolveType (ty : option rtype) (cfg : Config) (c : cache)
  : string * bool * cache :=
  match ty with
  | None => ("", false, c)
  | Some _ =>
      let '(name, c') := byType ty cfg c in
      (name, true, c')
  end.

(** The caches the process can hold: the empty one it starts with, and
    whatever a call of [byType] leaves behind. *)
Inductive reachable_cache : cache -> Prop :=
| cache_init : reachable_cache ∅
| cache_step ty cfg c :
    reachable_cache c -> reachable_cache (byType ty cfg c).2.

(** The name [byType] computes when nothing is memoized: [Normalize] under
    [cfg], then the formatting under [cfg]. *)
Definition direct_name (ty : option rtype) (cfg : Config) : string :=
  (byType ty cfg ∅).1.

(** The key [byType] files a result under. *)
Definition key_of (ty : option rtype) (cfg : Config) : cacheKey :=
  {| t := ty;
     includeBuiltin := IncludeBuiltins cfg;
     maxUnwrap := int16 (MaxUnwrap cfg);
     mapPreferElem := MapPreferElem cfg |}.

(** The caches left by calls whose configs all satisfy [P]. *)
Inductive cache_from (P : Config -> Prop) : cache -> Prop :=
| cache_from_init : cache_from P ∅
| cache_from_step ty cfg c :
    cache_from P c -> P cfg -> cache_from P (byType ty cfg c).2.

(** The two results of a strategy call. *)
Definition name_of (r : string * bool * cache) : string := r.1.1.
Definition handled (r : string * bool * cache) : bool := r.1.2.

(** *** The namer and the registry strategies *)

(** [namerStrategy.TryResolve] and [TryResolveType]. *)
Definition namerStrategy_TryResolve (v : option value) (_ : Config)
  : string * bool :=
  match v with
  | None => ("", false)
  | Some x =>
      match EntityName x with
      | Some n => (n, true)
      | None => ("", false)
      end
  end.

Definition namerStrategy_TryResolveType (_ : option rtype) (_ : Config)
  : string * bool :=
  ("", false).

(** [registryStrategy.TryResolve] and [TryResolveType].  [reg] is the
    registry the strategy holds, as it is when the call is made; [None] is
    the nil registry. *)
Definition registryStrategy_TryResolve (reg : option registry.registry)
    (v : option value) (_ : Config) : string * bool :=
  match v, reg with
  | Some x, Some r => registry.Lookup (Some (TypeOf x)) r
  | _, _ => ("", false)
  end.

Definition registryStrategy_TryResolveType (reg : option registry.registry)
    (ty : option rtype) (_ : Config) : string * bool :=
  match ty, reg with
  | Some _, Some r => registry.Lookup ty r
  | _, _ => ("", false)
  end.

End strategy.

(** ** Package resolver: the chain *)

Module resolver.
Section Chain.

(** [W] is what the strategies of a chain read and change when they run. *)
Context {W : Type}.

(** [apis.Strategy], an interface with two methods. *)
Record Strategy : Type := mkStrategy {
  TryResolve : option strategy.value -> Config -> W -> string * bool * W;
  TryResolveType : option rtype -> Config -> W -> string * bool * W
}.

Record chain : Type := mkChain { strats : list Strategy }.

(** [New(strategies...)]: the nil strategies dropped, the order kept. *)
Definition New (strategies : list (option Strategy)) : chain :=
  {| strats := omap id strategies |}.

(** The loops of [Resolve] and [ResolveType] over the strategies left. *)
Fixpoint resolve_from (ss : list Strategy) (v : option strategy.value)
    (cfg : Config) (w : W) : string * W :=
  match ss with
  | [] => ("", w)
  | s :: ss' =>
      let '(name, ok, w') := TryResolve s v cfg w in
      if ok then (name, w') else resolve_from ss' v cfg w'
  end.

Fixpoint resolveType_from (ss : list Strategy) (ty : option rtype)
    (cfg : Config) (w : W) : string * W :=
  match ss with
  | [] => ("", w)
  | s :: ss' =>
      let '(name, ok, w') := TryResolveType s ty cfg w in
      if ok then (name, w') else resolveType_from ss' ty cfg w'
  end.

Definition Resolve (r : chain) (v : option strategy.value) (cfg : Config)
    (w : W) : string * W :=
  resolve_from (strats r) v cfg w.

Definition ResolveType (r : chain) (ty : option rtype) (cfg : Config)
    (w : W) : string * W :=
  resolveType_from (strats r) ty cfg w.

End Chain.

Arguments Strategy : clear implicits.
Arguments chain : clear implicits.

End resolver.

(** ** Package rfx: the global snapshot state machine *)

Module rfx.
Section Machine.

(** [apis.Registry] and [apis.Resolver] are interfaces; the snapshot holds
    interface values, compared by identity.  [Registry] and [Resolver] are
    the types of the non-nil ones, and [option] adds nil.  [Ext] is the type
    of non-nil extension payloads ([ext any]).  [World] is everything a
    builder can read or change when it runs: the heap its objects live in
    and its own fields and counters. *)
Context {Registry Resolver Ext World : Type}.

(** [apis.Builder].  A method call takes the world and returns its result
    with the world it leaves. *)
Record Builder : Type := mkBuilder {
  BuildRegistry :
    Config -> option Registry -> option Ext -> World
    -> option Registry * World;
  BuildResolver :
    Config -> option Registry -> option Resolver -> option Ext -> World
    -> option Resolver * World
}.

(** The [state] struct.  [bld] is never nil: [init] stores [builder.New()],
    [SetBuilder] returns on nil and [SetAll] keeps [old.bld] on nil, so it
    is a [Builder] here and the nil builder appears only as an argument. *)
Record state : Type := mkState {
  cfg : Config;
  ext : option Ext;
  reg : option Registry;
  res : option Resolver;
  bld : Builder;
  preg : bool;
  pres : bool
}.

(** A call of a builder method, as the machine observed it: the receiver,
    the arguments and the returned value. *)
Inductive call : Type :=
| CallBuildRegistry (b : Builder) (c : Config) (prev : option Registry)
    (e : option Ext) (ret : option Registry)
| CallBuildResolver (b : Builder) (c : Config) (r : option Registry)
    (prev : option Resolver) (e : option Ext) (ret : option Resolver).

(** The process-wide state: [st] is the snapshot the atomic pointer refers
    to, [older] the snapshots published before it (newest first), [world]
    the rest of the heap, and [calls] the builder calls made so far (newest
    first).  [older] and [calls] are history: no operation reads them. *)
Record machine : Type := mkMachine {
  st : state;
  older : list state;
  world : World;
  calls : list call
}.

(** Writers run in a state-and-panic monad over [machine]. *)
Inductive reply (A : Type) : Type :=
| Done (a : A) (m : machine)
| Panic (e : error) (m : machine).
Arguments Done {A} a m.
Arguments Panic {A} e m.

Definition M (A : Type) : Type := machine -> reply A.

Definition ret {A} (a : A) : M A := fun m => Done a m.

Definition bind {A B} (x : M A) (f : A -> M B) : M B :=
  fun m =>
    match x m with
    | Done a m' => f a m'
    | Panic e m' => Panic e m'
    end.

Definition panic {A} (e : error) : M A := fun m => Panic e m.

(** [st.Load()]. *)
Definition Load : M state := fun m => Done (st m) m.

(** [st.Store(&state{...})]: the new snapshot becomes current and the
    previous one joins the history. *)
Definition Store (s : state) : M unit :=
  fun m =>
    Done tt {| st := s; older := st m :: older m;
               world := world m; calls := calls m |}.

(** [b.BuildRegistry(c, prev, e)] and [b.BuildResolver(c, r, prev, e)]. *)
Definition callBuildRegistry (b : Builder) (c : Config)
    (prev : option Registry) (e : option Ext) : M (option Registry) :=
  fun m =>
    let '(x, w) := BuildRegistry b c prev e (world m) in
    Done x {| st := st m; older := older m; world := w;
              calls := CallBuildRegistry b c prev e x :: calls m |}.

Definition callBuildResolver (b : Builder) (c : Config)
    (r : option Registry) (prev : option Resolver) (e : option Ext)
  : M (option Resolver) :=
  fun m =>
    let '(x, w) := BuildResolver b c r prev e (world m) in
    Done x {| st := st m; older := older m; world := w;
              calls := CallBuildResolver b c r prev e x :: calls m |}.

Notation "x <- c1 ;; c2" := (bind c1 (fun x => c2))
  (at level 100, c1 at next level, right associativity).

(** The package's [init] with builder [b] ([builder.New()] in the source),
    started in world [w].  [init] has no nil checks. *)
Definition init (b : Builder) (w : World) : machine :=
  let s_cfg := DefaultConfig in
  let '(s_reg, w1) := BuildRegistry b s_cfg None None w in
  let '(s_res, w2) := BuildResolver b s_cfg s_reg None None w1 in
  {| st := {| cfg := s_cfg; ext := None; reg := s_reg; res := s_res;
              bld := b; preg := false; pres := false |};
     older := [];
     world := w2;
     calls := [CallBuildResolver b s_cfg s_reg None None s_res;
               CallBuildRegistry b s_cfg None None s_reg] |}.

Definition SetAll (c : option Config) (e : option Ext)
    (r : option Registry) (x : option Resolver) (b : option Builder)
  : M unit :=
  old <- Load ;;
  (* Configuration *)
  let ncfg := match c with Some c' => c' | None => cfg old end in
  (* Extension *)
  let next := e in
  (* Builder *)
  let nbld := match b with Some b' => b' | None => bld old end in
  (* Registry *)
  nreg_npreg <-
    match r with
    | None =>
        nreg <- callBuildRegistry nbld ncfg (reg old) next ;;
        ret (nreg, false)
    | Some _ => ret (r, true)
    end ;;
  let '(nreg, npreg) := nreg_npreg in
  (* Resolver *)
  nres_npres <-
    match x with
    | None =>
        nres <- callBuildResolver nbld ncfg nreg (res old) next ;;
        ret (nres, false)
    | Some _ => ret (x, true)
    end ;;
  let '(nres, npres) := nres_npres in
  match nreg, nres with
  | None, _ => panic ErrNilRegistry
  | Some _, None => panic ErrNilResolver
  | Some _, Some _ =>
      Store {| cfg := ncfg; ext := next; reg := nreg; res := nres;
               bld := nbld; preg := npreg; pres := npres |}
  end.

Definition SetConfig (c : Config) : M unit :=
  old <- Load ;;
  let b := bld old in
  nreg <-
    (if negb (preg old)
     then callBuildRegistry b c (reg old) (ext old)
     else ret (reg old)) ;;
  nres <-
    (if negb (pres old)
     then callBuildResolver b c nreg (res old) (ext old)
     else ret (res old)) ;;
  match nreg, nres with
  | None, _ => panic ErrNilRegistry
  | Some _, None => panic ErrNilResolver
  | Some _, Some _ =>
      Store {| cfg := c; ext := ext old; reg := nreg; res := nres;
               bld := b; preg := preg old; pres := pres old |}
  end.

Definition SetRegistry (r : option Registry) : M unit :=
  match r with
  | None => ret tt
  | Some _ =>
      old <- Load ;;
      let b := bld old in
      nres <-
        (if negb (pres old)
         then callBuildResolver b (cfg old) r (res old) (ext old)
         else ret (res old)) ;;
      match nres with
      | None => panic ErrNilResolver
      | Some _ =>
          Store {| cfg := cfg old; ext := ext old; reg := r; res := nres;
                   bld := b; preg := true; pres := pres old |}
      end
  end.

Definition SetResolver (x : option Resolver) : M unit :=
  match x with
  | None => ret tt
  | Some _ =>
      old <- Load ;;
      Store {| cfg := cfg old; ext := ext old; reg := reg old; res := x;
               bld := bld old; preg := preg old; pres := true |}
  end.

Definition SetBuilder (b : option Builder) : M unit :=
  match b with
  | None => ret tt
  | Some b =>
      old <- Load ;;
      nreg <-
        (if negb (preg old)
         then callBuildRegistry b (cfg old) (reg old) (ext old)
         else ret (reg old)) ;;
      nres <-
        (if negb (pres old)
         then callBuildResolver b (cfg old) nreg (res old) (ext old)
         else ret (res old)) ;;
      match nreg, nres with
      | None, _ => panic ErrNilRegistry
      | Some _, None => panic ErrNilResolver
      | Some _, Some _ =>
          Store {| cfg := cfg old; ext := ext old; reg := nreg; res := nres;
                   bld := b; preg := preg old; pres := pres old |}
      end
  end.

Definition SetExt (e : option Ext) : M unit :=
  old <- Load ;;
  let b := bld old in
  nreg <-
    (if negb (preg old)
     then callBuildRegistry b (cfg old) (reg old) e
     else ret (reg old)) ;;
  nres <-
    (if negb (pres old)
     then callBuildResolver b (cfg old) nreg (res old) e
     else ret (res old)) ;;
  match nreg, nres with
  | None, _ => panic ErrNilRegistry
  | Some _, None => panic ErrNilResolver
  | Some _, Some _ =>
      Store {| cfg := cfg old; ext := e; reg := nreg; res := nres;
               bld := b; preg := preg old; pres := pres old |}
  end.

Definition PinRegistry : M unit :=
  old <- Load ;;
  Store {| cfg := cfg old; ext := ext old; reg := reg old; res := res old;
           bld := bld old; preg := true; pres := pres old |}.

Definition UnpinRegistry : M unit :=
  old <- Load ;;
  Store {| cfg := cfg old; ext := ext old; reg := reg old; res := res old;
           bld := bld old; preg := false; pres := pres old |}.

Definition PinResolver : M unit :=
  old <- Load ;;
  Store {| cfg := cfg old; ext := ext old; reg := reg old; res := res old;
           bld := bld old; preg := preg old; pres := true |}.

Definition UnpinResolver : M unit :=
  old <- Load ;;
  Store {| cfg := cfg old; ext := ext old; reg := reg old; res := res old;
           bld := bld old; preg := preg old; pres := false |}.

(** The readers. *)
Definition Config_ (m : machine) : Config := cfg (st m).
Definition Registry_ (m : machine) : option Registry := reg (st m).
Definition Resolver_ (m : machine) : option Resolver := res (st m).
Definition Builder_ (m : machine) : Builder := bld (st m).
Definition IsRegistryPinned (m : machine) : bool := preg (st m).
Definition IsResolverPinned (m : machine) : bool := pres (st m).

(** *** Executions *)

(** The writers of the package, as the program can call them. *)
Inductive op : Type :=
| OpSetAll (c : option Config) (e : option Ext) (r : option Registry)
    (x : option Resolver) (b : option Builder)
| OpSetConfig (c : Config)
| OpSetRegistry (r : option Registry)
| OpSetResolver (x : option Resolver)
| OpSetBuilder (b : option Builder)
| OpSetExt (e : option Ext)
| OpPinRegistry
| OpUnpinRegistry
| OpPinResolver
| OpUnpinResolver.

Definition run (o : op) : M unit :=
  match o with
  | OpSetAll c e r x b => SetAll c e r x b
  | OpSetConfig c => SetConfig c
  | OpSetRegistry r => SetRegistry r
  | OpSetResolver x => SetResolver x
  | OpSetBuilder b => SetBuilder b
  | OpSetExt e => SetExt e
  | OpPinRegistry => PinRegistry
  | OpUnpinRegistry => UnpinRegistry
  | OpPinResolver => PinResolver
  | OpUnpinResolver => UnpinResolver
  end.

(** The machine after a call: as the call left it, whether it returned or
    panicked (a panic that the caller recovers from). *)
Definition after {A} (r : reply A) : machine :=
  match r with
  | Done _ m' => m'
  | Panic _ m' => m'
  end.

Definition exec (o : op) (m : machine) : machine := after (run o m).

(** What the rest of the program does between two writes (registering
    types in a registry, allocating objects, ...) changes the world only. *)
Definition with_world (f : World -> World) (m : machine) : machine :=
  {| st := st m; older := older m; world := f (world m); calls := calls m |}.

(** The states reachable from [init b0 w0] by the writers that satisfy
    [allowed], interleaved with steps of the rest of the program. *)
Inductive reachable_by (allowed : op -> Prop) (b0 : Builder) (w0 : World)
  : machine -> Prop :=
| reach_init : reachable_by allowed b0 w0 (init b0 w0)
| reach_op o m :
    reachable_by allowed b0 w0 m -> allowed o ->
    reachable_by allowed b0 w0 (exec o m)
| reach_world f m :
    reachable_by allowed b0 w0 m ->
    reachable_by allowed b0 w0 (with_world f m).

Definition reachable : Builder -> World -> machine -> Prop :=
  reachable_by (fun _ => True).

(** The snapshots published so far, the current one first. *)
Definition published (m : machine) : list state := st m :: older m.

(** The builder calls made by a run that took [m] to [m']. *)
Definition new_calls (m m' : machine) : list call :=
  take (length (calls m') - length (calls m)) (calls m').

Definition returned_nil (k : call) : bool :=
  match k with
  | CallBuildRegistry _ _ _ _ None => true
  | CallBuildResolver _ _ _ _ _ None => true
  | _ => false
  end.

(** Snapshot [s] holds a resolver that a recorded call of [BuildResolver] on
    the builder of [s] returned when given the config and the registry of
    [s]. *)
Definition resolver_built_from_own_layers (ks : list call) (s : state)
  : Prop :=
  exists prev e x,
    res s = Some x /\
    In (CallBuildResolver (bld s) (cfg s) (reg s) prev e (Some x)) ks.

(** No recorded call of [BuildResolver], on any builder and with any
    arguments, returned [x]. *)
Definition never_built (ks : list call) (x : Resolver) : Prop :=
  forall b c r prev e, ~ In (CallBuildResolver b c r prev e (Some x)) ks.

(** The snapshot invariant on the resolver. *)
Definition resolver_consistent (ks : list call) (s : state) : Prop :=
  pres s = false -> resolver_built_from_own_layers ks s.

(** Both layers of a snapshot are non-nil. *)
Definition layers_non_nil (s : state) : Prop :=
  reg s <> None /\ res s <> None.

(** The writers that rebuild layers through the builder and check the
    result for nil. *)
Definition nil_checked (o : op) : Prop :=
  match o with
  | OpSetConfig _ | OpSetBuilder _ | OpSetExt _ | OpSetAll _ _ _ _ _ => True
  | _ => False
  end.

(** The writers that call [BuildResolver] when the resolver is not
    pinned. *)
Definition rebuilds_resolver (o : op) : Prop :=
  match o with
  | OpSetConfig _ | OpSetExt _ | OpSetBuilder (Some _)
  | OpSetRegistry (Some _) | OpSetAll _ _ _ None _ => True
  | _ => False
  end.

(** The machine with other pin flags in its current snapshot. *)
Definition with_pins (p q : bool) (m : machine) : machine :=
  {| st := {| cfg := cfg (st m); ext := ext (st m); reg := reg (st m);
              res := res (st m); bld := bld (st m); preg := p; pres := q |};
     older := older m; world := world m; calls := calls m |}.

(** The writers that rebuild both layers unless pinned, keeping the
    flags. *)
Definition keeps_pins (o : op) : Prop :=
  match o with
  | OpSetConfig _ | OpSetExt _ | OpSetBuilder (Some _) => True
  | _ => False
  end.

Definition is_BuildRegistry (k : call) : bool :=
  match k with CallBuildRegistry _ _ _ _ _ => true | _ => false end.

Definition is_BuildResolver (k : call) : bool :=
  match k with CallBuildResolver _ _ _ _ _ _ => true | _ => false end.

(** What a builder call of a write that took [m] to [m'] was given and
    returned, against the two snapshots. *)
Definition call_matches (m m' : machine) (k : call) : Prop :=
  match k with
  | CallBuildRegistry b c prev e ret =>
      b = bld (st m') /\ c = cfg (st m') /\ e = ext (st m') /\
      prev = reg (st m) /\ ret = reg (st m')
  | CallBuildResolver b c r prev e ret =>
      b = bld (st m') /\ c = cfg (st m') /\ e = ext (st m') /\
      r = reg (st m') /\ prev = res (st m) /\ ret = res (st m')
  end.

End Machine.

Arguments Builder : clear implicits.
Arguments state : clear implicits.
Arguments machine : clear implicits.
Arguments call : clear implicits.
Arguments op : clear implicits.
Arguments Done {Registry Resolver Ext World A} a m.
Arguments Panic {Registry Resolver Ext World A} e m.
Arguments new_calls : simpl never.

End rfx.

(** ** Packages resolver and builder: the default builder *)

Module builder.

(** Objects are identified by their address. *)
Abbreviation addr := nat.

(** The three strategies of package strategy, as the default chain holds
    them; [RegistryStrategy] keeps the registry it was given. *)
Inductive Strategy : Type :=
| NamerStrategy
| RegistryStrategy (reg : option addr)
| ReflectStrategy.

(** [resolver.chain]. *)
Record chain : Type := mkChain { strats : list Strategy }.

(** [resolver.New]: nil strategies are dropped, the order is kept. *)
Definition resolver_New (strategies : list (option Strategy)) : chain :=
  {| strats := omap id strategies |}.

(** The heap of the objects this builder and its callers create: the
    registries and the resolvers, and the next free address of each. *)
Record heap : Type := mkHeap {
  registries : gmap addr registry.registry;
  next_registry : addr;
  resolvers : gmap addr chain;
  next_resolver : addr
}.

Definition empty_heap : heap :=
  {| registries := ∅; next_registry := 0%nat;
     resolvers := ∅; next_resolver := 0%nat |}.

Definition alloc_registry (r : registry.registry) (h : heap) : addr * heap :=
  (next_registry h,
   {| registries := <[next_registry h := r]> (registries h);
      next_registry := S (next_registry h);
      resolvers := resolvers h;
      next_resolver := next_resolver h |}).

Definition alloc_resolver (c : chain) (h : heap) : addr * heap :=
  (next_resolver h,
   {| registries := registries h;
      next_registry := next_registry h;
      resolvers := <[next_resolver h := c]> (resolvers h);
      next_resolver := S (next_resolver h) |}).

(** [preg.Entries()] for a registry reference. *)
Definition entries_of (h : heap) (a : addr) : list registry.Entry :=
  match registries h !! a with
  | Some r => registry.Entries r
  | None => []
  end.

(** [BuildRegistry] of the default builder: a new registry for [cfg], with the entries
    of the previous one registered again (errors dropped). *)
Definition BuildRegistry (cfg : Config) (preg : option addr)
    (_ : option string) (h : heap) : option addr * heap :=
  let nreg := registry.New cfg in
  let nreg :=
    match preg with
    | Some a =>
        foldl (fun r e =>
                 (registry.Register (Some (registry.Type_ e))
                    (registry.Name_ e) r).2)
              nreg (entries_of h a)
    | None => nreg
    end in
  let '(a, h') := alloc_registry nreg h in
  (Some a, h').

(** [BuildResolver] of the default builder: the chain namer, registry, reflect. *)
Definition BuildResolver (cfg : Config) (reg : option addr)
    (_ : option addr) (_ : option string) (h : heap) : option addr * heap :=
  let c := resolver_New [Some NamerStrategy;
                         Some (RegistryStrategy reg);
                         Some ReflectStrategy] in
  let '(a, h') := alloc_resolver c h in
  (Some a, h').

(** [builder.New()]. *)
Definition New : rfx.Builder addr addr string heap :=
  {| rfx.BuildRegistry := BuildRegistry;
     rfx.BuildResolver := BuildResolver |}.

(** A broken builder, of the kind the nil checks of the writers guard
    against: both methods return nil. *)
Definition Broken : rfx.Builder addr addr string heap :=
  {| rfx.BuildRegistry := fun _ _ _ h => (None, h);
     rfx.BuildResolver := fun _ _ _ _ h => (None, h) |}.

(** The process after [init], on an empty heap. *)
Definition start : rfx.machine addr addr string heap :=
  rfx.init New empty_heap.

(** A resolver made by the caller, outside any builder: [resolver.New()]
    over no strategy. *)
Definition user_resolver (h : heap) : addr * heap :=
  alloc_resolver (resolver_New []) h.

(** A registry made by the caller: [registry.New(cfg)]. *)
Definition user_registry (cfg : Config) (h : heap) : addr * heap :=
  alloc_registry (registry.New cfg) h.

(** The chain [BuildResolver] makes for a registry. *)
Definition default_chain (reg : option addr) : chain :=
  resolver_New [Some NamerStrategy; Some (RegistryStrategy reg);
                Some ReflectStrategy].

(** Every object of the heap lies below the next free address. *)
Definition heap_ok (h : heap) : Prop :=
  (forall a, is_Some (registries h !! a) -> (a < next_registry h)%nat) /\
  (forall a, is_Some (resolvers h !! a) -> (a < next_resolver h)%nat).

(** [h'] has the objects of [h], unchanged, and possibly more. *)
Definition heap_extends (h h' : heap) : Prop :=
  registries h ⊆ registries h' /\ resolvers h ⊆ resolvers h'.

(** The heap is well formed and so is every registry in it. *)
Definition heap_fine (h : heap) : Prop :=
  heap_ok h /\
  forall a r, registries h !! a = Some r -> registry.registry_ok r.

(** The writers that bring no builder of their own, or the default one. *)
Definition default_args (o : rfx.op addr addr string heap) : Prop :=
  match o with
  | rfx.OpSetBuilder (Some b) | rfx.OpSetAll _ _ _ _ (Some b) => b = New
  | _ => True
  end.

End builder.

(** ** The process with the default builder *)

Module process.

(** What the default strategies read and change: the heap, where the
    registries live, and the package variable [typeNameCache]. *)
Record store : Type := mkStore {
  heap_of : builder.heap;
  typeNameCache : gmap strategy.cacheKey string
}.

(** The registry behind a reference.  A reference the program holds always
    has its object; the nil reference has none. *)
Definition registry_at (h : builder.heap) (a : option builder.addr)
  : option registry.registry :=
  match a with
  | Some a => builder.registries h !! a
  | None => None
  end.

(** The strategies of the default chain, as [apis.Strategy] values. *)
Definition denote (s : builder.Strategy) : resolver.Strategy store :=
  match s with
  | builder.NamerStrategy =>
      {| resolver.TryResolve := fun v cfg w =>
           (strategy.namerStrategy_TryResolve v cfg, w);
         resolver.TryResolveType := fun ty cfg w =>
           (strategy.namerStrategy_TryResolveType ty cfg, w) |}
  | builder.RegistryStrategy reg =>
      {| resolver.TryResolve := fun v cfg w =>
           (strategy.registryStrategy_TryResolve
              (registry_at (heap_of w) reg) v cfg, w);
         resolver.TryResolveType := fun ty cfg w =>
           (strategy.registryStrategy_TryResolveType
              (registry_at (heap_of w) reg) ty cfg, w) |}
  | builder.ReflectStrategy =>
      {| resolver.TryResolve := fun v cfg w =>
           let '(name, ok, c) :=
             strategy.TryResolve v cfg (typeNameCache w) in
           (name, ok, {| heap_of := heap_of w; typeNameCache := c |});
         resolver.TryResolveType := fun ty cfg w =>
           let '(name, ok, c) :=
             strategy.TryResolveType ty cfg (typeNameCache w) in
           (name, ok, {| heap_of := heap_of w; typeNameCache := c |}) |}
  end.

(** A chain of the heap, as a chain of strategy values. *)
Definition chain_of (c : builder.chain) : resolver.chain store :=
  {| resolver.strats := denote <$> builder.strats c |}.

(** The whole process: the snapshot machine of the default builder and the
    memoization cache. *)
Record process : Type := mkProcess {
  machine_of : rfx.machine builder.addr builder.addr string builder.heap;
  cache_of : gmap strategy.cacheKey string
}.

Definition store_of (p : process) : store :=
  {| heap_of := rfx.world (machine_of p); typeNameCache := cache_of p |}.

Definition with_store (p : process) (w : store) : process :=
  {| machine_of := rfx.with_world (fun _ => heap_of w) (machine_of p);
     cache_of := typeNameCache w |}.

(** The resolver object of the current snapshot.  [None] when the snapshot
    has no resolver: the call through the nil interface panics. *)
Definition current_chain (p : process) : option builder.chain :=
  match rfx.res (rfx.st (machine_of p)) with
  | Some x => builder.resolvers (rfx.world (machine_of p)) !! x
  | None => None
  end.

(** [Entity(v)] and [EntityType(t)]: the name, and the process afterwards;
    [None] for the panic of a call on a nil resolver. *)
Definition Entity (v : option strategy.value) (p : process)
  : option (string * process) :=
  match current_chain p with
  | Some c =>
      let '(name, w) :=
        resolver.Resolve (chain_of c) v (rfx.cfg (rfx.st (machine_of p)))
          (store_of p) in
      Some (name, with_store p w)
  | None => None
  end.

Definition EntityType (ty : option rtype) (p : process)
  : option (string * process) :=
  match current_chain p with
  | Some c =>
      let '(name, w) :=
        resolver.ResolveType (chain_of c) ty
          (rfx.cfg (rfx.st (machine_of p))) (store_of p) in
      Some (name, with_store p w)
  | None => None
  end.

(** [RegisterType(t, name)]: [Register] on the registry of the current
    snapshot; [None] for the panic of a call on a nil registry. *)
Definition RegisterType (ty : option rtype) (name : string) (p : process)
  : option (option error * process) :=
  match rfx.reg (rfx.st (machine_of p)) with
  | Some a =>
      match builder.registries (rfx.world (machine_of p)) !! a with
      | Some r =>
          let '(e, r') := registry.Register ty name r in
          Some (e,
                {| machine_of :=
                     rfx.with_world
                       (fun h =>
                          {| builder.registries :=
                               <[a := r']> (builder.registries h);
                             builder.next_registry := builder.next_registry h;
                             builder.resolvers := builder.resolvers h;
                             builder.next_resolver := builder.next_resolver h |})
                       (machine_of p);
                   cache_of := cache_of p |})
      | None => None
      end
  | None => None
  end.

(** A writer of package rfx, run in the process. *)
Definition write (o : rfx.op builder.addr builder.addr string builder.heap)
    (p : process) : process :=
  {| machine_of := rfx.exec o (machine_of p); cache_of := cache_of p |}.

(** The process after [init]. *)
Definition start : process :=
  {| machine_of := builder.start; cache_of := ∅ |}.

(** The registry object of the current snapshot. *)
Definition current_registry (p : process) : option registry.registry :=
  registry_at (rfx.world (machine_of p)) (rfx.reg (rfx.st (machine_of p))).

(** The state the default builder keeps the process in: the snapshot holds
    the default builder, its resolver is not pinned and is the default chain
    over the registry of the snapshot, the heap is well formed and its
    registries are. *)
Definition settled (p : process) : Prop :=
  let m := machine_of p in
  rfx.bld (rfx.st m) = builder.New /\
  rfx.pres (rfx.st m) = false /\
  builder.heap_ok (rfx.world m) /\
  (forall a r,
      builder.registries (rfx.world m) !! a = Some r ->
      registry.registry_ok r) /\
  exists a x,
    rfx.reg (rfx.st m) = Some a /\
    rfx.res (rfx.st m) = Some x /\
    is_Some (builder.registries (rfx.world m) !! a) /\
    builder.resolvers (rfx.world m) !! x
      = Some (builder.default_chain (Some a)).

(** The writers of a program that leaves the resolver to the builder: it
    injects no resolver and does not pin it, brings no builder but the
    default one, and injects only registries that exist. *)
Definition plain_write (h : builder.heap)
    (o : rfx.op builder.addr builder.addr string builder.heap) : Prop :=
  match o with
  | rfx.OpSetConfig _ | rfx.OpSetExt _ => True
  | rfx.OpPinRegistry | rfx.OpUnpinRegistry | rfx.OpUnpinResolver => True
  | rfx.OpPinResolver => False
  | rfx.OpSetBuilder b => b = None \/ b = Some builder.New
  | rfx.OpSetRegistry r =>
      forall a, r = Some a -> is_Some (builder.registries h !! a)
  | rfx.OpSetResolver x => x = None
  | rfx.OpSetAll _ _ r x b =>
      (forall a, r = Some a -> is_Some (builder.registries h !! a)) /\
      x = None /\ (b = None \/ b = Some builder.New)
  end.

(** The processes such a program can reach. *)
Inductive reachable : process -> Prop :=
| reach_start : reachable start
| reach_write o p :
    reachable p -> plain_write (rfx.world (machine_of p)) o ->
    reachable (write o p)
| reach_RegisterType ty name p e p' :
    reachable p -> RegisterType ty name p = Some (e, p') -> reachable p'
| reach_Entity v p name p' :
    reachable p -> Entity v p = Some (name, p') -> reachable p'
| reach_EntityType ty p name p' :
    reachable p -> EntityType ty p = Some (name, p') -> reachable p'.

End process.

(** ** Types and configs used in the examples *)

Module fixtures.

Definition A : rtype := TOther "A" "dirpx.dev/rfx/utils/reflect_test".
Definition tstring : rtype := TOther "string" "".
Definition Anon : rtype := TOther "" "".
Definition cfg8 : Config := mkConfig true 8 true.

Definition user : rtype := TOther "user" "dirpx.dev/rfx/registry_test".
Definition r0 : registry.registry := registry.New DefaultConfig.

End fixtures.

(** * Properties *)

(** ** Normalize *)

(** The cases of the package's own tests. *)
Module NormalizeTests.
Import fixtures.
Example basic_containers :
  Normalize (Some A) cfg8 = Ok A /\
  Normalize (Some (wrap Ptr A)) cfg8 = Ok A /\
  Normalize (Some (wrap Slice A)) cfg8 = Ok A /\
  Normalize (Some (wrap Array A)) cfg8 = Ok A /\
  Normalize (Some (wrap Chan A)) cfg8 = Ok A.
Proof. repeat split. Qed.

Example map_preference :
  Normalize (Some (map_of tstring A)) cfg8 = Ok A /\
  Normalize (Some (map_of tstring A)) (mkConfig true 8 false) = Ok tstring.
Proof. split; reflexivity. Qed.

Example max_unwrap :
  Normalize (Some (wraps [Ptr; Ptr] A)) (mkConfig true 1 true)
    = Err ErrReflectTypeNotNamed /\
  Normalize (Some (wraps [Ptr; Ptr] A)) cfg8 = Ok A.
Proof. split; reflexivity. Qed.

Example errors :
  Normalize None cfg8 = Err ErrReflectNilType /\
  Normalize (Some Anon) cfg8 = Err ErrReflectTypeNotNamed.
Proof. split; reflexivity. Qed.

Example map_unnamed_elem_fallback :
  Normalize (Some (map_of tstring Anon)) cfg8 = Ok tstring /\
  Normalize (Some (map_of tstring Anon)) (mkConfig true 8 false) = Ok tstring.
Proof. split; reflexivity. Qed.
End NormalizeTests.

Lemma Normalize_unfold (t : rtype) (cfg : Config) :
  Normalize (Some t) cfg = unwrap_from (budget cfg) (MapPreferElem cfg) 0 t.
Proof. reflexivity. Qed.

(** One iteration of the loop, read as the source writes it: a switch on
    [t.Kind()] that calls [t.Elem()] and [t.Key()]. *)
Lemma unwrap_from_by_kind (mx : Z) (pe : bool) (i : Z) (t : rtype) :
  i < mx ->
  unwrap_from mx pe i t =
    match kind_of t with
    | KPtr | KSlice | KArray | KChan =>
        match Elem t with
        | Some et => unwrap_from mx pe (i + 1) et
        | None => Err ErrReflectTypeNotNamed
        end
    | KMap =>
        match Key t, Elem t with
        | Some kt, Some et =>
            if pe then
              if named et then Ok et
              else if named kt then Ok kt
              else unwrap_from mx pe (i + 1) et
            else
              if named kt then Ok kt
              else if named et then Ok et
              else unwrap_from mx pe (i + 1) et
        | _, _ => Err ErrReflectTypeNotNamed
        end
    | KOther => if named t then Ok t else Err ErrReflectTypeNotNamed
    end.
Proof.
  intros Hi. apply Z.ltb_lt in Hi.
  destruct t as [n p | k n p et | n p kt et]; cbn [unwrap_from]; rewrite Hi.
  - reflexivity.
  - destruct k; reflexivity.
  - reflexivity.
Qed.

Lemma budget_positive (cfg : Config) : 1 <= budget cfg.
Proof.
  unfold budget, DefaultMaxUnwrap.
  destruct (Z.leb_spec (MaxUnwrap cfg) 0); lia.
Qed.

Lemma budget_id (cfg : Config) : 1 <= MaxUnwrap cfg -> budget cfg = MaxUnwrap cfg.
Proof.
  intros H. unfold budget.
  destruct (Z.leb_spec (MaxUnwrap cfg) 0); [lia | reflexivity].
Qed.

Lemma named_TOther (name pkg : string) :
  name <> "" -> named (TOther name pkg) = true.
Proof.
  intros H. unfold named; simpl.
  destruct (String.eqb_spec name ""); [contradiction | reflexivity].
Qed.

Lemma named_wrap (k : ElemKind) (t : rtype) : named (wrap k t) = false.
Proof. reflexivity. Qed.

(** The loop on a named plain type under [ks] constructors, entered at
    counter [i]: it succeeds exactly when the remaining budget covers the
    constructors. *)
Lemma unwrap_from_wraps (mx : Z) (pe : bool) (name pkg : string) :
  name <> "" ->
  forall (ks : list ElemKind) (i : Z),
    i <= mx ->
    unwrap_from mx pe i (wraps ks (TOther name pkg)) =
      if i + Z.of_nat (length ks) <=? mx
      then Ok (TOther name pkg)
      else Err ErrReflectTypeNotNamed.
Proof.
  intros Hname ks.
  induction ks as [| k ks IH]; intros i Hi.
  - cbn [wraps length unwrap_from].
    rewrite (named_TOther _ _ Hname).
    replace (i + Z.of_nat 0 <=? mx) with true
      by (symmetry; apply Z.leb_le; simpl; lia).
    destruct (i <? mx); reflexivity.
  - cbn [wraps length]. unfold wrap at 1. cbn [unwrap_from].
    destruct (Z.ltb_spec i mx) as [Hlt | Hge].
    + rewrite IH by lia.
      replace (i + 1 + Z.of_nat (length ks)) with (i + Z.of_nat (S (length ks)))
        by lia.
      reflexivity.
    + replace (i + Z.of_nat (S (length ks)) <=? mx) with false
        by (symmetry; apply Z.leb_gt; lia).
      reflexivity.
Qed.

(** C2. For a named non-container type [T], a config with [MaxUnwrap >= 1]
    and any stack [ks] of pointer, slice, array and channel constructors
    around [T]: [Normalize] returns [T] when the depth [length ks] is at most
    [MaxUnwrap], and fails with [ErrReflectTypeNotNamed] when it is
    greater. *)
Theorem Normalize_depth_within_budget
    (name pkg : string) (ks : list ElemKind) (cfg : Config) :
  name <> "" ->
  1 <= MaxUnwrap cfg ->
  let T := TOther name pkg in
  (Z.of_nat (length ks) <= MaxUnwrap cfg ->
     Normalize (Some (wraps ks T)) cfg = Ok T) /\
  (Z.of_nat (length ks) > MaxUnwrap cfg ->
     Normalize (Some (wraps ks T)) cfg = Err ErrReflectTypeNotNamed).
Proof.
  intros Hname Hmax T. subst T.
  rewrite Normalize_unfold, (budget_id _ Hmax).
  rewrite (unwrap_from_wraps _ _ _ _ Hname) by lia.
  rewrite Z.add_0_l.
  split; intros Hd.
  - apply Z.leb_le in Hd. rewrite Hd. reflexivity.
  - assert ((Z.of_nat (length ks) <=? MaxUnwrap cfg) = false) as ->
      by (apply Z.leb_gt; lia).
    reflexivity.
Qed.

Lemma Normalize_depth_within_budget_witness :
  "A" <> "" /\ 1 <= MaxUnwrap (mkConfig true 2 true) /\
  Normalize (Some (wraps [Ptr; Slice] (TOther "A" "pkg"))) (mkConfig true 2 true)
    = Ok (TOther "A" "pkg") /\
  Normalize (Some (wraps [Chan; Array; Ptr] (TOther "A" "pkg"))) (mkConfig true 2 true)
    = Err ErrReflectTypeNotNamed.
Proof.
  assert (Hn : "A" <> "") by discriminate.
  assert (Hm : 1 <= MaxUnwrap (mkConfig true 2 true)) by (simpl; lia).
  split; [exact Hn |]. split; [exact Hm |].
  split.
  - apply (Normalize_depth_within_budget "A" "pkg" [Ptr; Slice] _ Hn Hm).
    simpl; lia.
  - apply (Normalize_depth_within_budget "A" "pkg" [Chan; Array; Ptr] _ Hn Hm).
    simpl; lia.
Defined.

(** The first iteration on a map type, whatever its own name: the loop is
    always entered, since the budget is at least one. *)
Lemma Normalize_map_unfold (n p : string) (kt et : rtype) (cfg : Config) :
  Normalize (Some (TMap n p kt et)) cfg =
    if MapPreferElem cfg then
      if named et then Ok et
      else if named kt then Ok kt
      else unwrap_from (budget cfg) (MapPreferElem cfg) 1 et
    else
      if named kt then Ok kt
      else if named et then Ok et
      else unwrap_from (budget cfg) (MapPreferElem cfg) 1 et.
Proof.
  rewrite Normalize_unfold. cbn [unwrap_from].
  pose proof (budget_positive cfg) as Hb.
  destruct (Z.ltb_spec 0 (budget cfg)); [| lia].
  reflexivity.
Qed.

(** C3. For a map type with key [kt] and element [et], under any config:
    with both sides named, [Normalize] returns the element when
    [MapPreferElem] is set and the key otherwise; with the preferred side
    unnamed and the other side named, it returns the named side; with neither
    side named, it goes on with the element at counter 1, and the key has no
    influence on the result. *)
Theorem Normalize_map_sides (n p : string) (kt et : rtype) (cfg : Config) :
  let t := Some (TMap n p kt et) in
  (named kt = true -> named et = true ->
     Normalize t cfg = Ok (if MapPreferElem cfg then et else kt)) /\
  (named kt = true -> named et = false -> Normalize t cfg = Ok kt) /\
  (named kt = false -> named et = true -> Normalize t cfg = Ok et) /\
  (named kt = false -> named et = false ->
     Normalize t cfg = unwrap_from (budget cfg) (MapPreferElem cfg) 1 et /\
     forall kt', named kt' = false ->
       Normalize (Some (TMap n p kt' et)) cfg = Normalize t cfg).
Proof.
  intros t. subst t.
  split; [| split; [| split]]; intros Hk He.
  - rewrite Normalize_map_unfold, Hk, He.
    destruct (MapPreferElem cfg); reflexivity.
  - rewrite Normalize_map_unfold, Hk, He.
    destruct (MapPreferElem cfg); reflexivity.
  - rewrite Normalize_map_unfold, Hk, He.
    destruct (MapPreferElem cfg); reflexivity.
  - split.
    + rewrite Normalize_map_unfold, Hk, He.
      destruct (MapPreferElem cfg); reflexivity.
    + intros kt' Hk'. rewrite !Normalize_map_unfold, Hk, He, Hk'.
      reflexivity.
Qed.

Lemma Normalize_map_sides_witness :
  let K := TOther "string" "" in
  let V := TOther "A" "pkg" in
  let U := TOther "" "" in
  Normalize (Some (map_of K V)) (mkConfig true 8 true) = Ok V /\
  Normalize (Some (map_of K V)) (mkConfig true 8 false) = Ok K /\
  Normalize (Some (map_of K U)) (mkConfig true 8 true) = Ok K /\
  Normalize (Some (map_of U V)) (mkConfig true 8 false) = Ok V /\
  Normalize (Some (map_of U (wrap Ptr V))) (mkConfig true 8 false) = Ok V.
Proof.
  intros K V U.
  split; [| split; [| split; [| split]]].
  - exact (proj1 (Normalize_map_sides "" "" K V (mkConfig true 8 true))
             eq_refl eq_refl).
  - exact (proj1 (Normalize_map_sides "" "" K V (mkConfig true 8 false))
             eq_refl eq_refl).
  - exact (proj1 (proj2 (Normalize_map_sides "" "" K U (mkConfig true 8 true)))
             eq_refl eq_refl).
  - exact (proj1 (proj2 (proj2
             (Normalize_map_sides "" "" U V (mkConfig true 8 false))))
             eq_refl eq_refl).
  - exact (proj1 (proj2 (proj2 (proj2
             (Normalize_map_sides "" "" U (wrap Ptr V) (mkConfig true 8 false))))
             eq_refl eq_refl)).
Defined.

(** ** Registry *)

(** The cases of the package's own tests, on a registry made by [New]. *)
Module RegistryTests.
Import registry fixtures.
Example register_idempotent_and_lookup :
  let '(e1, r1) := Register (Some (wrap Ptr user)) "domain.user" r0 in
  let '(e2, r2) := Register (Some user) "domain.user" r1 in
  e1 = None /\ e2 = None /\ Count r2 = 1 /\
  Lookup (Some (wrap Slice user)) r2 = ("domain.user", true).
Proof. vm_compute. repeat split. Qed.

Example register_conflict :
  let '(e1, r1) := Register (Some user) "a" r0 in
  let '(e2, r2) := Register (Some user) "b" r1 in
  e1 = None /\ e2 = Some ErrConflictingRegistration /\ r2 = r1.
Proof. vm_compute. repeat split. Qed.

Example register_errors :
  (Register None "x" r0).1 = Some ErrNilType /\
  (Register (Some user) "" r0).1 = Some ErrEmptyName /\
  (Register (Some (TOther "" "")) "x" r0).1 = Some ErrReflectTypeNotNamed.
Proof. vm_compute. repeat split. Qed.

Example lookup_nil_and_unknown :
  Lookup None r0 = ("", false) /\ Lookup (Some user) r0 = ("", false).
Proof. vm_compute. split; reflexivity. Qed.
End RegistryTests.

Section RegistryProperties.
Import registry.

Lemma Register_unbound (T : rtype) (b : rtype) (x : string) (r : registry) :
  Normalize (Some T) (cfg r) = Ok b ->
  x <> "" ->
  m r !! b = None ->
  Register (Some T) x r =
    (None, {| cfg := cfg r; m := <[b := x]> (m r); count := count r + 1 |}).
Proof.
  intros Hn Hx Hb. unfold Register.
  destruct (String.eqb_spec x ""); [contradiction |].
  rewrite Hn, Hb. reflexivity.
Qed.

Lemma Register_bound (T : rtype) (b : rtype) (old x : string) (r : registry) :
  Normalize (Some T) (cfg r) = Ok b ->
  x <> "" ->
  m r !! b = Some old ->
  Register (Some T) x r =
    (if String.eqb old x then None else Some ErrConflictingRegistration, r).
Proof.
  intros Hn Hx Hb. unfold Register.
  destruct (String.eqb_spec x ""); [contradiction |].
  rewrite Hn, Hb. destruct (String.eqb old x); reflexivity.
Qed.

Lemma Lookup_bound (T : rtype) (b : rtype) (x : string) (r : registry) :
  Normalize (Some T) (cfg r) = Ok b ->
  m r !! b = Some x ->
  Lookup (Some T) r = (x, true).
Proof. intros Hn Hb. unfold Lookup. rewrite Hn, Hb. reflexivity. Qed.

(** C4. For a registry [r], a type [T] that normalizes to [b] under the
    registry's config, with [b] not registered under another name, and
    distinct non-empty names [x] and [y]: both calls [Register(T, x)]
    return nil; after the first the registry holds exactly the entry
    [(b, x)] for [b] (one entry more and the counter one higher when [b] was
    new, no change when [(b, x)] was there already) and the second changes
    nothing; a following [Register(T, y)] returns
    [ErrConflictingRegistration] and changes nothing, so the name stored
    for [T] is still [x] and the count is the same. *)
Theorem Register_idempotent_conflict_atomic
    (T b : rtype) (x y : string) (r : registry) :
  Normalize (Some T) (cfg r) = Ok b ->
  x <> "" -> y <> "" -> x <> y ->
  (forall z, m r !! b = Some z -> z = x) ->
  let '(e1, r1) := Register (Some T) x r in
  let '(e2, r2) := Register (Some T) x r1 in
  let '(e3, r3) := Register (Some T) y r2 in
  e1 = None /\ e2 = None /\
  m r1 = <[b := x]> (m r) /\
  (m r !! b = None ->
     size (m r1) = S (size (m r)) /\ Count r1 = Count r + 1) /\
  (m r !! b = Some x -> r1 = r) /\
  r2 = r1 /\
  e3 = Some ErrConflictingRegistration /\ r3 = r2 /\
  Lookup (Some T) r3 = (x, true) /\ Count r3 = Count r1.
Proof.
  intros Hn Hx Hy Hxy Hb.
  assert (Hconflict : forall r1 : registry,
             cfg r1 = cfg r -> m r1 !! b = Some x ->
             Register (Some T) x r1 = (None, r1) /\
             Register (Some T) y r1 = (Some ErrConflictingRegistration, r1) /\
             Lookup (Some T) r1 = (x, true)).
  { intros r1 Hc Hb1.
    assert (Hn1 : Normalize (Some T) (cfg r1) = Ok b) by (rewrite Hc; exact Hn).
    rewrite (Register_bound T b x x r1 Hn1 Hx Hb1), String.eqb_refl.
    rewrite (Register_bound T b x y r1 Hn1 Hy Hb1).
    destruct (String.eqb_spec x y) as [-> | _]; [contradiction |].
    split; [reflexivity |]. split; [reflexivity |].
    apply (Lookup_bound T b x r1 Hn1 Hb1). }
  destruct (m r !! b) as [z |] eqn:Hlook.
  - (* [(b, x)] is there already *)
    assert (z = x) as -> by (apply Hb; reflexivity).
    destruct (Hconflict r eq_refl Hlook) as (H1 & H3 & HL).
    rewrite H1, H1, H3.
    repeat split; try discriminate; try assumption.
    symmetry. apply insert_id, Hlook.
  - (* [b] is new *)
    rewrite (Register_unbound T b x r Hn Hx Hlook).
    set (r1 := {| cfg := cfg r; m := <[b := x]> (m r); count := count r + 1 |}).
    assert (Hb1 : m r1 !! b = Some x)
      by (subst r1; simpl; apply lookup_insert_eq).
    destruct (Hconflict r1 eq_refl Hb1) as (H1 & H3 & HL).
    rewrite H1, H3.
    repeat split; try discriminate; try assumption.
    subst r1; simpl. apply map_size_insert_None, Hlook.
Qed.

Lemma Register_idempotent_conflict_atomic_witness :
  let T := wrap Ptr (TOther "user" "pkg") in
  let b := TOther "user" "pkg" in
  let r := New DefaultConfig in
  let '(e1, r1) := Register (Some T) "x" r in
  let '(e2, r2) := Register (Some T) "x" r1 in
  let '(e3, r3) := Register (Some T) "y" r2 in
  e1 = None /\ e2 = None /\
  m r1 = <[b := "x"]> (m r) /\
  (m r !! b = None ->
     size (m r1) = S (size (m r)) /\ Count r1 = Count r + 1) /\
  (m r !! b = Some "x" -> r1 = r) /\
  r2 = r1 /\
  e3 = Some ErrConflictingRegistration /\ r3 = r2 /\
  Lookup (Some T) r3 = ("x", true) /\ Count r3 = Count r1.
Proof.
  intros T b r.
  refine (Register_idempotent_conflict_atomic T b "x" "y" r eq_refl _ _ _ _);
    discriminate.
Defined.

(** C9. When the descriptor does not normalize under the registry's config
    (nil descriptor, no named type, or budget exhausted), [Lookup] answers
    [("", false)] and the registry is as it was. *)
Theorem Lookup_swallows_normalize_error
    (t : option rtype) (r : registry) (e : error) :
  Normalize t (cfg r) = Err e ->
  Lookup t r = ("", false) /\
  call (CallLookup t) r = (RetLookup "" false, r).
Proof.
  intros Hn.
  assert (HL : Lookup t r = ("", false)).
  { unfold Lookup. destruct t as [t |]; [| reflexivity].
    rewrite Hn. reflexivity. }
  split; [exact HL |].
  unfold call. rewrite HL. reflexivity.
Qed.

Lemma Lookup_swallows_normalize_error_witness :
  let r := (Register (Some (TOther "user" "pkg")) "x"
              (New (mkConfig true 1 true))).2 in
  (Lookup None r = ("", false) /\
     call (CallLookup None) r = (RetLookup "" false, r)) /\
  (Lookup (Some (TOther "" "")) r = ("", false) /\
     call (CallLookup (Some (TOther "" ""))) r = (RetLookup "" false, r)) /\
  (Lookup (Some (wraps [Ptr; Ptr] (TOther "user" "pkg"))) r = ("", false) /\
     call (CallLookup (Some (wraps [Ptr; Ptr] (TOther "user" "pkg")))) r
       = (RetLookup "" false, r)).
Proof.
  intros r.
  split; [| split].
  - exact (Lookup_swallows_normalize_error None r ErrReflectNilType eq_refl).
  - exact (Lookup_swallows_normalize_error (Some (TOther "" "")) r
             ErrReflectTypeNotNamed eq_refl).
  - exact (Lookup_swallows_normalize_error
             (Some (wraps [Ptr; Ptr] (TOther "user" "pkg"))) r
             ErrReflectTypeNotNamed eq_refl).
Defined.

End RegistryProperties.

(** ** The reflective fallback *)

Section ReflectProperties.
Import strategy.

Lemma byType_hit (ty : option rtype) (cfg : Config) (c : cache) (v : string) :
  c !! key_of ty cfg = Some v -> byType ty cfg c = (v, c).
Proof. intros H. unfold byType. fold (key_of ty cfg). rewrite H. reflexivity. Qed.

Lemma byType_miss (ty : option rtype) (cfg : Config) (c : cache) :
  c !! key_of ty cfg = None ->
  byType ty cfg c =
    (direct_name ty cfg, <[key_of ty cfg := direct_name ty cfg]> c).
Proof.
  intros H. unfold direct_name, byType. fold (key_of ty cfg).
  rewrite H, lookup_empty.
  destruct (Normalize ty cfg); reflexivity.
Qed.

Lemma direct_name_Err (ty : option rtype) (cfg : Config) (e : error) :
  Normalize ty cfg = Err e -> direct_name ty cfg = "".
Proof.
  intros H. unfold direct_name, byType. rewrite lookup_empty, H. reflexivity.
Qed.

Lemma int16_fits (x : Z) : fits_int16 x -> int16 x = x.
Proof.
  unfold fits_int16, int16. intros H.
  rewrite Z.mod_small by lia. lia.
Qed.

Lemma key_of_inj (ty ty' : option rtype) (cfg cfg' : Config) :
  fits_int16 (MaxUnwrap cfg) -> fits_int16 (MaxUnwrap cfg') ->
  key_of ty cfg = key_of ty' cfg' -> ty = ty' /\ cfg = cfg'.
Proof.
  intros Hf Hf' Hk. unfold key_of in Hk.
  injection Hk as Ht Hi Hm Hp.
  rewrite (int16_fits _ Hf), (int16_fits _ Hf') in Hm.
  split; [exact Ht |].
  destruct cfg, cfg'; simpl in *; congruence.
Qed.

Lemma cache_from_reachable (P : Config -> Prop) (c : cache) :
  cache_from P c -> reachable_cache c.
Proof. induction 1; constructor; assumption. Qed.

(** As long as every [MaxUnwrap] in use fits in 16 bits, an entry holds the
    name computed for the type and config of its key. *)
Lemma cache_from_int16_faithful (c : cache) :
  cache_from (fun cfg => fits_int16 (MaxUnwrap cfg)) c ->
  forall ty cfg v,
    fits_int16 (MaxUnwrap cfg) ->
    c !! key_of ty cfg = Some v -> v = direct_name ty cfg.
Proof.
  induction 1 as [| ty0 cfg0 c Hc IH Hf0]; intros ty cfg v Hf Hv.
  - rewrite lookup_empty in Hv. discriminate.
  - destruct (c !! key_of ty0 cfg0) as [v0 |] eqn:Hk0.
    + rewrite (byType_hit _ _ _ _ Hk0) in Hv. simpl in Hv.
      apply (IH ty cfg v Hf Hv).
    + rewrite (byType_miss _ _ _ Hk0) in Hv. simpl in Hv.
      destruct (decide (key_of ty0 cfg0 = key_of ty cfg)) as [Heq | Hne].
      * rewrite Heq, lookup_insert_eq in Hv.
        destruct (key_of_inj _ _ _ _ Hf0 Hf Heq) as [-> ->].
        congruence.
      * rewrite lookup_insert_ne in Hv by exact Hne.
        apply (IH ty cfg v Hf Hv).
Qed.

(** Memoization is faithful to the config as long as every [MaxUnwrap] in
    use fits in 16 bits. *)
Lemma byType_faithful_within_int16 (ty : option rtype) (cfg : Config) (c : cache) :
  cache_from (fun cfg => fits_int16 (MaxUnwrap cfg)) c ->
  fits_int16 (MaxUnwrap cfg) ->
  (byType ty cfg c).1 = direct_name ty cfg.
Proof.
  intros Hc Hf.
  destruct (c !! key_of ty cfg) as [v |] eqn:Hk.
  - rewrite (byType_hit _ _ _ _ Hk). simpl.
    apply (cache_from_int16_faithful c Hc ty cfg v Hf Hk).
  - rewrite (byType_miss _ _ _ Hk). reflexivity.
Qed.

(** C5. The key keeps only the low 16 bits of [MaxUnwrap], so the configs
    with [MaxUnwrap = 1] and [MaxUnwrap = 65537] share an entry.  For the
    type `**A`, a first call under [MaxUnwrap = 1] memoizes the empty name
    (the budget is exhausted); the call under [MaxUnwrap = 65537] then
    returns that entry, although normalizing and formatting under its own
    config gives ["strategy.A"]. *)
Theorem byType_key_truncates_maxUnwrap :
  let A := TOther "A" "dirpx.dev/rfx/strategy" in
  let ty := Some (wraps [Ptr; Ptr] A) in
  let cfg1 := mkConfig true 1 true in
  let cfg2 := mkConfig true 65537 true in
  let c1 := (byType ty cfg1 ∅).2 in
  reachable_cache c1 /\
  key_of ty cfg1 = key_of ty cfg2 /\
  (byType ty cfg2 c1).1 = "" /\
  direct_name ty cfg2 = "strategy.A" /\
  (byType ty cfg2 c1).1 <> direct_name ty cfg2.
Proof.
  intros A ty cfg1 cfg2 c1.
  split; [apply cache_step, cache_init |].
  split; [reflexivity |].
  split; [vm_compute; reflexivity |].
  split; [vm_compute; reflexivity |].
  vm_compute. discriminate.
Qed.

(** C6, as the claim states it, fails on nil: a nil value and a nil type
    descriptor are declined, with [handled = false]. *)
Lemma reflect_declines_nil :
  TryResolve None DefaultConfig ∅ = ("", false, ∅) /\
  TryResolveType None DefaultConfig ∅ = ("", false, ∅) /\
  ~ (forall (v : option value) (ty : option rtype) (cfg : Config) (c : cache),
       handled (TryResolve v cfg c) = true /\
       handled (TryResolveType ty cfg c) = true).
Proof.
  split; [reflexivity |]. split; [reflexivity |].
  intros H.
  destruct (H None None DefaultConfig ∅) as [H1 _].
  vm_compute in H1. discriminate H1.
Qed.

(** C6, amended. For every non-nil value and every non-nil type descriptor,
    under every config and cache, the reflective fallback returns
    [handled = true]; when nothing is memoized under the key and
    [Normalize] fails, the name is empty and the call is still handled.
    A nil value and a nil descriptor are declined: [("", false)], the cache
    untouched. *)
Theorem reflect_handles_non_nil (cfg : Config) (c : cache) :
  (forall x : value, handled (TryResolve (Some x) cfg c) = true) /\
  (forall ty : rtype, handled (TryResolveType (Some ty) cfg c) = true) /\
  (forall (x : value) (e : error),
      Normalize (Some (TypeOf x)) cfg = Err e ->
      c !! key_of (Some (TypeOf x)) cfg = None ->
      name_of (TryResolve (Some x) cfg c) = "") /\
  (forall (ty : rtype) (e : error),
      Normalize (Some ty) cfg = Err e ->
      c !! key_of (Some ty) cfg = None ->
      name_of (TryResolveType (Some ty) cfg c) = "") /\
  TryResolve None cfg c = ("", false, c) /\
  TryResolveType None cfg c = ("", false, c).
Proof.
  repeat split.
  - intros x. unfold handled, TryResolve.
    destruct (byType (Some (TypeOf x)) cfg c). reflexivity.
  - intros ty. unfold handled, TryResolveType.
    destruct (byType (Some ty) cfg c). reflexivity.
  - intros x e Hn Hk. unfold name_of, TryResolve.
    rewrite (byType_miss _ _ _ Hk), (direct_name_Err _ _ _ Hn). reflexivity.
  - intros ty e Hn Hk. unfold name_of, TryResolveType.
    rewrite (byType_miss _ _ _ Hk), (direct_name_Err _ _ _ Hn). reflexivity.
Qed.

Lemma reflect_handles_non_nil_witness :
  let anon := TOther "" "" in
  handled (TryResolve (Some (mkValue anon None)) DefaultConfig ∅) = true /\
  name_of (TryResolve (Some (mkValue anon None)) DefaultConfig ∅) = "" /\
  handled (TryResolveType (Some anon) DefaultConfig ∅) = true /\
  name_of (TryResolveType (Some anon) DefaultConfig ∅) = "".
Proof.
  intros anon.
  destruct (reflect_handles_non_nil DefaultConfig ∅)
    as (Hv & Ht & Hvn & Htn & _ & _).
  split; [apply Hv |].
  split; [apply (Hvn (mkValue anon None) ErrReflectTypeNotNamed); reflexivity |].
  split; [apply Ht |].
  apply (Htn anon ErrReflectTypeNotNamed); reflexivity.
Defined.

End ReflectProperties.

(** ** The global snapshot state machine *)

(** Tactics for the writers. *)

Ltac unfold_run :=
  unfold rfx.exec, rfx.after, rfx.run, rfx.SetAll, rfx.SetConfig,
    rfx.SetRegistry, rfx.SetResolver, rfx.SetBuilder, rfx.SetExt,
    rfx.PinRegistry, rfx.UnpinRegistry, rfx.PinResolver, rfx.UnpinResolver,
    rfx.bind, rfx.Load, rfx.Store, rfx.ret, rfx.panic,
    rfx.callBuildRegistry, rfx.callBuildResolver in *.

(** Case analysis on what a writer branches on: the pin flags, the
    results of the builder calls, and the nil checks. *)
Ltac machine_cases :=
  cbn in *;
  repeat (
    match goal with
    | |- context [negb ?b] =>
        is_var b; destruct b
    | |- context [rfx.BuildRegistry ?b ?c ?r ?e ?w] =>
        destruct (rfx.BuildRegistry b c r e w) as [[?|] ?] eqn:?
    | |- context [rfx.BuildResolver ?b ?c ?r ?p ?e ?w] =>
        destruct (rfx.BuildResolver b c r p e w) as [[?|] ?] eqn:?
    | |- context [match ?x with Some _ => _ | None => _ end] =>
        is_var x; destruct x
    end; cbn in *).

(** Open the machine and its snapshot into their fields, run the writer,
    and split into its cases. *)
Ltac open_machine m :=
  let s := fresh "s" in
  destruct m as [s ? ? ?]; destruct s as [? ? ? ? ? ? ?];
  unfold_run; unfold rfx.published, rfx.layers_non_nil;
  machine_cases.

Section MachineProperties.
Import rfx.
Context {Registry Resolver Ext World : Type}.

Local Abbreviation Builder := (rfx.Builder Registry Resolver Ext World).
Local Abbreviation state := (rfx.state Registry Resolver Ext World).
Local Abbreviation machine := (rfx.machine Registry Resolver Ext World).
Local Abbreviation call := (rfx.call Registry Resolver Ext World).
Local Abbreviation op := (rfx.op Registry Resolver Ext World).

Lemma new_calls_app (m m' : machine) (ks : list call) :
  calls m' = ks ++ calls m -> new_calls m m' = ks.
Proof.
  intros H. unfold new_calls. rewrite H, length_app.
  replace (length ks + length (calls m) - length (calls m))%nat
    with (length ks) by lia.
  apply take_app_length.
Qed.

(** C10. With a nil argument, [SetRegistry], [SetResolver] and [SetBuilder]
    return at once: nothing is published, no builder is called and the
    machine is left as it was, so the snapshot keeps its config, extension,
    registry, resolver, builder and both pin flags, and the list of
    published snapshots is the same. *)
Theorem nil_injection_is_noop (m : machine) :
  (run (OpSetRegistry None) m = Done tt m /\
   run (OpSetResolver None) m = Done tt m /\
   run (OpSetBuilder None) m = Done tt m) /\
  (exec (OpSetRegistry None) m = m /\
   exec (OpSetResolver None) m = m /\
   exec (OpSetBuilder None) m = m) /\
  (published (exec (OpSetRegistry None) m) = published m /\
   published (exec (OpSetResolver None) m) = published m /\
   published (exec (OpSetBuilder None) m) = published m) /\
  (preg (st (exec (OpSetRegistry None) m)) = preg (st m) /\
   pres (st (exec (OpSetResolver None) m)) = pres (st m)).
Proof. repeat split. Qed.

(** *** Nil layers *)

(** Whatever a writer does, it either leaves the list of published
    snapshots alone or puts one new snapshot in front of it, and it only
    adds to the record of builder calls. *)
Lemma run_shape (o : op) (m : machine) :
  (published (exec o m) = published m \/
   published (exec o m) = st (exec o m) :: published m) /\
  exists ks, calls (exec o m) = ks ++ calls m.
Proof.
  destruct o; open_machine m;
    (split; [auto | first [ by exists [] | by eexists [_] | by eexists [_; _] ]]).
Qed.

(** A panic publishes nothing. *)
Lemma panic_publishes_nothing (o : op) (m m' : machine) (e : error) :
  run o m = Panic e m' -> st m' = st m /\ older m' = older m.
Proof.
  destruct o; open_machine m; intros H;
    first [discriminate H | injection H as _ <-; split; reflexivity].
Qed.

(** A writer started on a snapshot with both layers publishes only
    snapshots with both layers. *)
Lemma exec_layers_non_nil (o : op) (m : machine) :
  layers_non_nil (st m) -> layers_non_nil (st (exec o m)).
Proof.
  destruct o; open_machine m; intros [Hr Hx];
    split; first [assumption | discriminate].
Qed.

Ltac reduce_new_calls H :=
  first [ rewrite (new_calls_app _ _ []) in H by reflexivity
        | erewrite (new_calls_app _ _ [_]) in H by reflexivity
        | erewrite (new_calls_app _ _ [_; _]) in H by reflexivity ].

Lemma nil_call_panics (o : op) (m : machine) :
  nil_checked o ->
  existsb returned_nil (new_calls m (exec o m)) = true ->
  exists e,
    run o m = Panic e (exec o m) /\
    (e = ErrNilRegistry \/ e = ErrNilResolver) /\
    st (exec o m) = st m /\
    published (exec o m) = published m.
Proof.
  destruct o; try contradiction; intros _;
    open_machine m; intros Hnil; reduce_new_calls Hnil;
    first [ discriminate Hnil
          | eexists; repeat split; eauto ].
Qed.

Lemma done_publishes_layers (o : op) (m m' : machine) :
  nil_checked o ->
  run o m = Done tt m' ->
  published m' = published m \/
  (published m' = st m' :: published m /\ layers_non_nil (st m')).
Proof.
  destruct o; try contradiction; intros _;
    open_machine m; intros H;
    first [ discriminate H
          | injection H as <-; cbn; first [ by left | right; repeat split; discriminate ] ].
Qed.

(** From a snapshot with both layers, a writer panics only when one of its
    builder calls returned nil. *)
Lemma panic_only_on_nil_call (o : op) (m m' : machine) (e : error) :
  layers_non_nil (st m) ->
  run o m = Panic e m' ->
  existsb returned_nil (new_calls m m') = true.
Proof.
  destruct o; open_machine m; intros [Hr Hx] H;
    first [ discriminate H | contradiction
          | injection H as _ <-;
            first [ rewrite (new_calls_app _ _ []) by reflexivity
                  | erewrite (new_calls_app _ _ [_]) by reflexivity
                  | erewrite (new_calls_app _ _ [_; _]) by reflexivity ];
            reflexivity ].
Qed.

Lemma reachable_layers_non_nil (b0 : Builder) (w0 : World) (m : machine) :
  layers_non_nil (st (init b0 w0)) ->
  reachable b0 w0 m ->
  Forall layers_non_nil (published m).
Proof.
  intros Hinit Hreach.
  induction Hreach as [| o m Hm IH _ | f m Hm IH].
  - unfold published.
    assert (older (init b0 w0) = []) as ->.
    { unfold init.
      destruct (BuildRegistry b0 DefaultConfig None None w0) as [r w1].
      destruct (BuildResolver b0 DefaultConfig r None None w1) as [x w2].
      reflexivity. }
    constructor; [exact Hinit | constructor].
  - destruct (run_shape o m) as [[Hsame | Hnew] _].
    + rewrite Hsame. exact IH.
    + rewrite Hnew. constructor; [| exact IH].
      apply exec_layers_non_nil.
      unfold published in IH. apply Forall_cons in IH as [H _]. exact H.
  - exact IH.
Qed.

(** C8. For [SetConfig], [SetBuilder], [SetExt] and [SetAll], from any
    state: when a builder call made by the writer returns nil, the writer
    panics with [ErrNilRegistry] or [ErrNilResolver] and publishes nothing,
    so the snapshot that was current stays current, unchanged (the calls
    made by the writer are those it added to the record); when the
    writer returns, it has either published nothing or published one
    snapshot whose registry and resolver are both non-nil.  In every state
    reachable from an [init] with both layers, every published snapshot has
    both layers. *)
Theorem nil_layer_never_published :
  (forall (o : op) (m : machine),
      nil_checked o ->
      (exists ks,
          calls (exec o m) = ks ++ calls m /\ new_calls m (exec o m) = ks) /\
      (existsb returned_nil (new_calls m (exec o m)) = true ->
         exists e,
           run o m = Panic e (exec o m) /\
           (e = ErrNilRegistry \/ e = ErrNilResolver) /\
           st (exec o m) = st m /\
           published (exec o m) = published m) /\
      (forall m',
          run o m = Done tt m' ->
          published m' = published m \/
          (published m' = st m' :: published m /\ layers_non_nil (st m')))) /\
  (forall (b0 : Builder) (w0 : World) (m : machine),
      layers_non_nil (st (init b0 w0)) ->
      reachable b0 w0 m ->
      Forall layers_non_nil (published m)).
Proof.
  split.
  - intros o m Ho. split; [| split].
    + destruct (run_shape o m) as [_ [ks Hks]].
      exists ks. split; [exact Hks | apply new_calls_app, Hks].
    + apply nil_call_panics, Ho.
    + intros m'. apply done_publishes_layers, Ho.
  - apply reachable_layers_non_nil.
Qed.

(** *** Pinning *)

(** C7. When [SetRegistry(R)] with a non-nil [R] has returned, [R] is the
    registry of the snapshot and the registry is pinned.  A [SetConfig(c)]
    that follows then either publishes a snapshot with config [c], the same
    registry [R] and the same pin flags, whose resolver is the old one (no
    builder call) if the resolver is pinned and otherwise the value that the
    one builder call [BuildResolver(c, R, old resolver, ext)] returned; or,
    only when the resolver is not pinned and that call returned nil, panics
    with [ErrNilResolver] and publishes nothing. *)
Theorem pinned_registry_survives_SetConfig
    (m m1 : machine) (R : Registry) (c : Config) :
  run (OpSetRegistry (Some R)) m = Done tt m1 ->
  reg (st m1) = Some R /\ preg (st m1) = true /\ pres (st m1) = pres (st m) /\
  match run (OpSetConfig c) m1 with
  | Done _ m2 =>
      published m2 = st m2 :: published m1 /\
      cfg (st m2) = c /\ reg (st m2) = Some R /\
      preg (st m2) = true /\ pres (st m2) = pres (st m1) /\
      if pres (st m1)
      then res (st m2) = res (st m1) /\ new_calls m1 m2 = []
      else exists x,
          res (st m2) = Some x /\
          new_calls m1 m2 =
            [CallBuildResolver (bld (st m1)) c (Some R) (res (st m1))
               (ext (st m1)) (Some x)]
  | Panic e m2 =>
      e = ErrNilResolver /\ pres (st m1) = false /\
      st m2 = st m1 /\ published m2 = published m1 /\
      new_calls m1 m2 =
        [CallBuildResolver (bld (st m1)) c (Some R) (res (st m1))
           (ext (st m1)) None]
  end.
Proof.
  revert m1. open_machine m; intros m1 H;
    first [discriminate H | injection H as <-]; machine_cases;
    repeat split;
    try (eexists; split; [reflexivity |]);
    by apply new_calls_app.
Qed.

(** *** Provenance of the resolver *)

Lemma resolver_consistent_more_calls (ks ks' : list call) (s : state) :
  resolver_consistent ks s -> resolver_consistent (ks' ++ ks) s.
Proof.
  unfold resolver_consistent, resolver_built_from_own_layers.
  intros H Hp. destruct (H Hp) as (prev & e & x & Hres & Hin).
  exists prev, e, x. split; [exact Hres |].
  apply in_or_app. right. exact Hin.
Qed.

Ltac keep_witness H Hp :=
  let prev := fresh "prev" in
  let e := fresh "e" in let x := fresh "x" in
  let Hres := fresh "Hres" in let Hin := fresh "Hin" in
  specialize (H Hp);
  destruct H as (prev & e & x & Hres & Hin);
  exists prev, e, x; split; [exact Hres |];
  simpl; tauto.

Ltac new_witness :=
  eexists _, _, _; split; [reflexivity |]; simpl; tauto.

(** Every writer other than [UnpinResolver] keeps the invariant. *)
Lemma exec_resolver_consistent (o : op) (m : machine) :
  o <> OpUnpinResolver ->
  resolver_consistent (calls m) (st m) ->
  resolver_consistent (calls (exec o m)) (st (exec o m)).
Proof.
  unfold resolver_consistent, resolver_built_from_own_layers.
  destruct o; try (intros H; contradiction H; reflexivity); intros _;
    open_machine m; intros H Hp;
    first [ discriminate Hp | new_witness | keep_witness H Hp ].
Qed.

Lemma init_shape (b0 : Builder) (w0 : World) :
  older (init b0 w0) = [] /\
  pres (st (init b0 w0)) = false /\
  bld (st (init b0 w0)) = b0 /\
  exists prev e,
    calls (init b0 w0) =
      [CallBuildResolver b0 (cfg (st (init b0 w0))) (reg (st (init b0 w0)))
         prev e (res (st (init b0 w0)));
       CallBuildRegistry b0 DefaultConfig None None (reg (st (init b0 w0)))].
Proof.
  unfold init.
  destruct (BuildRegistry b0 DefaultConfig None None w0) as [r w1].
  destruct (BuildResolver b0 DefaultConfig r None None w1) as [x w2].
  cbn. repeat split. by exists None, None.
Qed.

Lemma reachable_resolver_consistent
    (b0 : Builder) (w0 : World) (m : machine) :
  res (st (init b0 w0)) <> None ->
  reachable_by (fun o => o <> OpUnpinResolver) b0 w0 m ->
  Forall (resolver_consistent (calls m)) (published m).
Proof.
  intros Hinit Hreach.
  induction Hreach as [| o m Hm IH Ho | f m Hm IH].
  - destruct (init_shape b0 w0) as (Hold & _ & Hbld & prev & e & Hcalls).
    unfold published. rewrite Hold. constructor; [| constructor].
    intros _. unfold resolver_built_from_own_layers.
    destruct (res (st (init b0 w0))) as [x |] eqn:Hx; [| contradiction].
    exists prev, e, x. split; [reflexivity |].
    rewrite Hcalls, Hbld. left. reflexivity.
  - destruct (run_shape o m) as [Hpub [ks Hks]].
    assert (Hold : Forall (resolver_consistent (calls (exec o m))) (published m)).
    { rewrite Hks. eapply Forall_impl; [exact IH |].
      intros s. apply resolver_consistent_more_calls. }
    destruct Hpub as [-> | ->]; [exact Hold |].
    constructor; [| exact Hold].
    apply exec_resolver_consistent; [exact Ho |].
    unfold published in IH. apply Forall_cons in IH as [H _]. exact H.
  - exact IH.
Qed.

Lemma unpin_keeps_injected_resolver (m : machine) (r : Resolver) :
  let m' := exec OpUnpinResolver (exec (OpSetResolver (Some r)) m) in
  pres (st m') = false /\ res (st m') = Some r /\
  cfg (st m') = cfg (st m) /\ reg (st m') = reg (st m) /\
  calls m' = calls m.
Proof. repeat split. Qed.

Lemma rebuild_restores_consistency (o : op) (m m' : machine) :
  rebuilds_resolver o ->
  pres (st m) = false ->
  run o m = Done tt m' ->
  pres (st m') = false /\
  resolver_built_from_own_layers (calls m') (st m').
Proof.
  unfold resolver_built_from_own_layers.
  destruct o as [? ? ? [?|] ?| | [?|] | | [?|] | | | | |];
    try contradiction; intros _;
    open_machine m; intros Hp H;
    first [ discriminate Hp | discriminate H
          | injection H as <-; split; [reflexivity | new_witness] ].
Qed.

(** C1, amended. Along an execution that starts from an [init] whose
    builder returned a resolver and that never calls [UnpinResolver], every
    published snapshot whose resolver is not pinned holds a resolver that a
    recorded call of [BuildResolver] returned for that snapshot's registry
    and config.  [UnpinResolver] clears the flag and keeps the resolver: after
    [SetResolver(r)] and [UnpinResolver()] the snapshot is not pinned and
    holds [r], with no builder call made.  A writer that rebuilds the
    resolver ([SetConfig], [SetExt], [SetBuilder] and [SetRegistry] with a
    non-nil argument, [SetAll] without a resolver), run on a snapshot whose
    resolver is not pinned, publishes, when it returns, a snapshot whose
    resolver was built from that snapshot's registry and config. *)
Theorem resolver_consistent_until_unpin :
  (forall (b0 : Builder) (w0 : World) (m : machine),
      res (st (init b0 w0)) <> None ->
      reachable_by (fun o => o <> OpUnpinResolver) b0 w0 m ->
      Forall (resolver_consistent (calls m)) (published m)) /\
  (forall (m : machine) (r : Resolver),
      let m' := exec OpUnpinResolver (exec (OpSetResolver (Some r)) m) in
      pres (st m') = false /\ res (st m') = Some r /\
      cfg (st m') = cfg (st m) /\ reg (st m') = reg (st m) /\
      calls m' = calls m) /\
  (forall (o : op) (m m' : machine),
      rebuilds_resolver o ->
      pres (st m) = false ->
      run o m = Done tt m' ->
      pres (st m') = false /\
      resolver_built_from_own_layers (calls m') (st m')).
Proof.
  split; [exact reachable_resolver_consistent |].
  split; [exact unpin_keeps_injected_resolver |].
  exact rebuild_restores_consistency.
Qed.

End MachineProperties.

(** ** The machine of the default builder *)

Section DefaultMachine.
Import rfx.

Local Abbreviation dmachine :=
  (rfx.machine builder.addr builder.addr string builder.heap).
Local Abbreviation dop :=
  (rfx.op builder.addr builder.addr string builder.heap).

(** The default builder makes a new object at every call. *)
Example default_builder_allocates :
  Registry_ builder.start = Some 0%nat /\
  Resolver_ builder.start = Some 0%nat /\
  Registry_ (exec (OpSetConfig (mkConfig false 4 false)) builder.start)
    = Some 1%nat /\
  Resolver_ (exec (OpSetConfig (mkConfig false 4 false)) builder.start)
    = Some 1%nat.
Proof. repeat split. Qed.

(** C1, as the claim states it, fails: the caller makes a resolver of its
    own, injects it with [SetResolver] and calls [UnpinResolver]; the
    published snapshot is then not pinned, and its resolver is not one any
    builder call returned. *)
Lemma unpin_after_inject_breaks_invariant :
  let m0 : dmachine :=
    with_world (fun h => (builder.user_resolver h).2) builder.start in
  let r := (builder.user_resolver (world builder.start)).1 in
  let m := exec OpUnpinResolver (exec (OpSetResolver (Some r)) m0) in
  reachable builder.New builder.empty_heap m /\
  IsResolverPinned m = false /\ Resolver_ m = Some r /\
  never_built (calls m) r /\
  ~ resolver_consistent (calls m) (st m) /\
  ~ Forall (resolver_consistent (calls m)) (published m).
Proof.
  intros m0 r m.
  assert (Hnever : never_built (calls m) r).
  { intros b c r' prev e Hin.
    destruct Hin as [Hin | [Hin | []]]; discriminate Hin. }
  assert (Hbad : ~ resolver_consistent (calls m) (st m)).
  { intros H. destruct (H eq_refl) as (prev & e & x & Hres & Hin).
    cbv in Hres. injection Hres as <-.
    exact (Hnever _ _ _ _ _ Hin). }
  split; [| split; [| split; [| split; [| split]]]].
  - subst m m0. apply reach_op; [| exact I]. apply reach_op; [| exact I].
    apply reach_world. apply reach_init.
  - reflexivity.
  - reflexivity.
  - exact Hnever.
  - exact Hbad.
  - intros H. unfold published in H. apply Forall_cons in H as [H _].
    exact (Hbad H).
Qed.

Lemma resolver_consistent_until_unpin_witness :
  let m0 : dmachine :=
    with_world (fun h => (builder.user_resolver h).2) builder.start in
  let r := (builder.user_resolver (world builder.start)).1 in
  let m : dmachine :=
    exec (OpSetConfig (mkConfig false 4 false))
      (exec (OpSetResolver (Some r)) m0) in
  let m' : dmachine := exec OpUnpinResolver (exec (OpSetResolver (Some r)) m0) in
  let m'' : dmachine := exec (OpSetExt (Some "tenant")) m' in
  Forall (resolver_consistent (calls m)) (published m) /\
  (pres (st m') = false /\ res (st m') = Some r) /\
  (pres (st m'') = false /\
   resolver_built_from_own_layers (calls m'') (st m'')).
Proof.
  intros m0 r m m' m''.
  destruct (@resolver_consistent_until_unpin
              builder.addr builder.addr string builder.heap)
    as (Hreach & Hunpin & Hrebuild).
  split; [| split].
  - apply (Hreach builder.New builder.empty_heap m).
    + discriminate.
    + subst m m0. apply reach_op; [| discriminate].
      apply reach_op; [| discriminate].
      apply reach_world. apply reach_init.
  - destruct (Hunpin m0 r) as (Hp & Hr & _).
    split; [exact Hp | exact Hr].
  - apply (Hrebuild (OpSetExt (Some "tenant")) m' m''); [exact I | | ];
      reflexivity.
Defined.

Lemma pinned_registry_survives_SetConfig_witness :
  let m : dmachine :=
    with_world (fun h => (builder.user_registry DefaultConfig h).2)
      builder.start in
  let R := 1%nat in
  let c := mkConfig false 4 false in
  let m1 := exec (OpSetRegistry (Some R)) m in
  let m2 := exec (OpSetConfig c) m1 in
  run (OpSetRegistry (Some R)) m = Done tt m1 /\
  Registry_ m1 = Some R /\ IsRegistryPinned m1 = true /\
  Config_ m2 = c /\ Registry_ m2 = Some R /\ IsRegistryPinned m2 = true /\
  IsResolverPinned m2 = false /\
  Resolver_ m1 = Some 1%nat /\ Resolver_ m2 = Some 2%nat.
Proof.
  intros m R c m1 m2.
  assert (Hrun : run (OpSetRegistry (Some R)) m = Done tt m1) by reflexivity.
  destruct (pinned_registry_survives_SetConfig m m1 R c Hrun)
    as (Hreg1 & Hpreg1 & _ & H2).
  change (run (OpSetConfig c) m1) with (Done tt m2) in H2.
  destruct H2 as (_ & Hcfg2 & Hreg2 & Hpreg2 & Hpres2 & _).
  repeat split; assumption.
Defined.

Lemma nil_layer_never_published_witness :
  let m : dmachine := builder.start in
  let o : dop := OpSetBuilder (Some builder.Broken) in
  (exists e, run o m = Panic e (exec o m)) /\
  published (exec o m) = published m /\
  Forall layers_non_nil
    (published (exec (OpSetConfig (mkConfig false 4 false)) (exec o m))).
Proof.
  intros m o.
  destruct (@nil_layer_never_published
              builder.addr builder.addr string builder.heap)
    as (Hwrite & Hreach).
  destruct (Hwrite o m I) as (_ & Hnil & _).
  destruct (Hnil eq_refl) as (e & Hrun & _ & _ & Hpub).
  split; [exists e; exact Hrun |].
  split; [exact Hpub |].
  apply (Hreach builder.New builder.empty_heap).
  - split; discriminate.
  - apply reach_op; [| exact I]. apply reach_op; [| exact I].
    apply reach_init.
Defined.

End DefaultMachine.

(** * Further properties *)

(** ** Normalize: results and errors *)

(** A descriptor of a kind the loop does not unwrap. *)
Lemma kind_other_inv (t : rtype) :
  kind_of t = KOther -> exists n p, t = TOther n p.
Proof.
  destruct t as [n p | k n p et | n p kt et]; intros H.
  - by exists n, p.
  - destruct k; discriminate H.
  - discriminate H.
Qed.

Lemma unwrap_from_named (mx : Z) (pe : bool) (t : rtype) :
  forall (i : Z) (b : rtype),
    unwrap_from mx pe i t = Ok b -> named b = true.
Proof.
  induction t as [n p | k n p et IH | n p kt _ et IHe]; intros i b;
    cbn [unwrap_from]; destruct (i <? mx).
  - destruct (named (TOther n p)) eqn:Hn; [| discriminate].
    intros [= <-]. exact Hn.
  - destruct (named (TOther n p)) eqn:Hn; [| discriminate].
    intros [= <-]. exact Hn.
  - apply IH.
  - destruct (named (TElem k n p et)) eqn:Hn; [| discriminate].
    intros [= <-]. exact Hn.
  - destruct pe, (named et) eqn:He, (named kt) eqn:Hk;
      first [ intros [= <-]; assumption | apply IHe ].
  - destruct (named (TMap n p kt et)) eqn:Hn; [| discriminate].
    intros [= <-]. exact Hn.
Qed.

Lemma unwrap_from_error (mx : Z) (pe : bool) (t : rtype) :
  forall (i : Z) (e : error),
    unwrap_from mx pe i t = Err e -> e = ErrReflectTypeNotNamed.
Proof.
  induction t as [n p | k n p et IH | n p kt _ et IHe]; intros i e;
    cbn [unwrap_from]; destruct (i <? mx).
  - destruct (named (TOther n p)); [discriminate |]. by intros [= <-].
  - destruct (named (TOther n p)); [discriminate |]. by intros [= <-].
  - apply IH.
  - destruct (named (TElem k n p et)); [discriminate |]. by intros [= <-].
  - destruct pe, (named et), (named kt);
      first [ discriminate | apply IHe ].
  - destruct (named (TMap n p kt et)); [discriminate |]. by intros [= <-].
Qed.

(** X1. Whatever the descriptor and the config, a type that [Normalize]
    returns has a non-empty name; the only errors are [ErrReflectNilType],
    exactly for the nil descriptor, and [ErrReflectTypeNotNamed]. *)
Theorem Normalize_result_named (t : option rtype) (cfg : Config) :
  match Normalize t cfg with
  | Ok b => t <> None /\ named b = true
  | Err e =>
      (t = None /\ e = ErrReflectNilType) \/
      (t <> None /\ e = ErrReflectTypeNotNamed)
  end.
Proof.
  destruct t as [t |]; [| left; split; reflexivity].
  rewrite Normalize_unfold.
  destruct (unwrap_from (budget cfg) (MapPreferElem cfg) 0 t) as [b | e] eqn:H.
  - split; [discriminate |]. exact (unwrap_from_named _ _ _ _ _ H).
  - right. split; [discriminate |]. exact (unwrap_from_error _ _ _ _ _ H).
Qed.

Lemma unwrap_from_part (mx : Z) (pe : bool) (t : rtype) :
  forall (i : Z) (b : rtype),
    unwrap_from mx pe i t = Ok b -> part_of b t.
Proof.
  induction t as [n p | k n p et IH | n p kt _ et IHe]; intros i b;
    cbn [unwrap_from]; destruct (i <? mx).
  - destruct (named (TOther n p)); [| discriminate].
    intros [= <-]. constructor.
  - destruct (named (TOther n p)); [| discriminate].
    intros [= <-]. constructor.
  - intros H. eapply part_elem; [reflexivity | exact (IH _ _ H)].
  - destruct (named (TElem k n p et)); [| discriminate].
    intros [= <-]. constructor.
  - destruct pe, (named et), (named kt); intros H;
      first [ injection H as <-;
              first [ eapply part_elem; [reflexivity | constructor]
                    | eapply part_key; [reflexivity | constructor] ]
            | eapply part_elem; [reflexivity | exact (IHe _ _ H)] ].
  - destruct (named (TMap n p kt et)); [| discriminate].
    intros [= <-]. constructor.
Qed.

(** X2. The type [Normalize] returns is the descriptor it was given or one
    reached from it through [Elem()] and [Key()]: it never makes up a
    type. *)
Theorem Normalize_result_part_of (t b : rtype) (cfg : Config) :
  Normalize (Some t) cfg = Ok b -> part_of b t.
Proof. rewrite Normalize_unfold. apply unwrap_from_part. Qed.

Lemma Normalize_result_part_of_witness :
  part_of (TOther "A" "pkg")
    (map_of (TOther "" "") (wrap Ptr (TOther "A" "pkg"))).
Proof.
  apply (Normalize_result_part_of _ _ DefaultConfig). reflexivity.
Defined.

Lemma unwrap_from_more_budget (mx mx' : Z) (pe : bool) (t : rtype) :
  mx <= mx' ->
  forall (i : Z) (b : rtype),
    unwrap_from mx pe i t = Ok b ->
    kind_of b = KOther ->
    unwrap_from mx' pe i t = Ok b.
Proof.
  intros Hle.
  induction t as [n p | k n p et IH | n p kt _ et IHe]; intros i b;
    cbn [unwrap_from];
    destruct (Z.ltb_spec i mx) as [Hi | Hi];
    destruct (Z.ltb_spec i mx') as [Hi' | Hi']; try lia.
  - tauto.
  - tauto.
  - tauto.
  - apply IH.
  - destruct (named (TElem k n p et)); [| discriminate].
    intros [= <-] Hk. destruct k; discriminate Hk.
  - tauto.
  - destruct pe, (named et), (named kt); first [ tauto | apply IHe ].
  - destruct (named (TMap n p kt et)); [| discriminate].
    intros [= <-] Hk. discriminate Hk.
  - tauto.
Qed.

(** X3. A result that is not itself a container is stable under a larger
    budget: when [Normalize] returns a type of a kind other than pointer,
    slice, array, channel or map, it returns the same type under any config
    with the same map preference and a budget at least as large. *)
Theorem Normalize_stable_under_more_budget
    (t b : rtype) (cfg cfg' : Config) :
  MapPreferElem cfg' = MapPreferElem cfg ->
  budget cfg <= budget cfg' ->
  Normalize (Some t) cfg = Ok b ->
  kind_of b = KOther ->
  Normalize (Some t) cfg' = Ok b.
Proof.
  intros Hpe Hle. rewrite !Normalize_unfold, Hpe.
  apply unwrap_from_more_budget, Hle.
Qed.

Lemma Normalize_stable_under_more_budget_witness :
  Normalize (Some (wraps [Ptr; Slice] (TOther "A" "pkg"))) (mkConfig true 9 true)
    = Ok (TOther "A" "pkg").
Proof.
  apply (Normalize_stable_under_more_budget _ _ (mkConfig false 2 true));
    [reflexivity | vm_compute; discriminate | reflexivity | reflexivity].
Defined.

(** A named type of a kind that is not unwrapped is its own normal form,
    under every config. *)
Lemma Normalize_plain (n p : string) (cfg : Config) :
  n <> "" -> Normalize (Some (TOther n p)) cfg = Ok (TOther n p).
Proof.
  intros Hn. rewrite Normalize_unfold. cbn [unwrap_from].
  rewrite (named_TOther _ _ Hn). destruct (0 <? budget cfg); reflexivity.
Qed.

(** ** Functional options *)

Section ConfigProperties.
Import config.

Lemma NewConfig_app (opts : list Option) (o : Option) :
  NewConfig (opts ++ [o]) =
    let c := o (foldl (fun c opt => opt c) DefaultConfig opts) in
    if MaxUnwrap c <? 0
    then {| IncludeBuiltins := IncludeBuiltins c;
            MaxUnwrap := DefaultMaxUnwrap;
            MapPreferElem := MapPreferElem c |}
    else c.
Proof. unfold NewConfig. rewrite foldl_app. reflexivity. Qed.

(** X4. Whatever the options do to the config, standard or written by the
    caller, [NewConfig] never returns a negative [MaxUnwrap]. *)
Theorem NewConfig_MaxUnwrap_not_negative (opts : list Option) :
  0 <= MaxUnwrap (NewConfig opts).
Proof.
  unfold NewConfig.
  destruct (Z.ltb_spec
              (MaxUnwrap (foldl (fun c opt => opt c) DefaultConfig opts)) 0);
    cbn; unfold DefaultMaxUnwrap; lia.
Qed.

(** X5. A standard option applied last sets its own field and leaves the
    other two as the options before it made them: [WithIncludeBuiltins] and
    [WithMapPreferElem] store their argument, [WithMaxUnwrap] stores its
    argument, or the default 8 for a negative one (zero is kept). *)
Theorem NewConfig_last_option_wins (opts : list Option) :
  (forall b,
      NewConfig (opts ++ [WithIncludeBuiltins b]) =
        {| IncludeBuiltins := b;
           MaxUnwrap := MaxUnwrap (NewConfig opts);
           MapPreferElem := MapPreferElem (NewConfig opts) |}) /\
  (forall b,
      NewConfig (opts ++ [WithMapPreferElem b]) =
        {| IncludeBuiltins := IncludeBuiltins (NewConfig opts);
           MaxUnwrap := MaxUnwrap (NewConfig opts);
           MapPreferElem := b |}) /\
  (forall n,
      NewConfig (opts ++ [WithMaxUnwrap n]) =
        {| IncludeBuiltins := IncludeBuiltins (NewConfig opts);
           MaxUnwrap := if n <? 0 then DefaultMaxUnwrap else n;
           MapPreferElem := MapPreferElem (NewConfig opts) |}).
Proof.
  split; [| split]; intros x; rewrite NewConfig_app; unfold NewConfig;
    set (c := foldl (fun c opt => opt c) DefaultConfig opts).
  - cbn. destruct (MaxUnwrap c <? 0); reflexivity.
  - cbn. destruct (MaxUnwrap c <? 0); reflexivity.
  - unfold WithMaxUnwrap.
    destruct (Z.ltb_spec x 0) as [Hx | Hx]; cbn.
    + destruct (MaxUnwrap c <? 0); reflexivity.
    + destruct (Z.ltb_spec x 0); [lia |].
      destruct (MaxUnwrap c <? 0); reflexivity.
Qed.

(** The cases of the package's own tests. *)
Example NewConfig_tests :
  NewConfig [] = DefaultConfig /\
  MaxUnwrap (NewConfig [WithMaxUnwrap 3]) = 3 /\
  MaxUnwrap (NewConfig [WithMaxUnwrap (-1)]) = DefaultMaxUnwrap /\
  MaxUnwrap (NewConfig [WithMaxUnwrap 0]) = 0 /\
  NewConfig [WithIncludeBuiltins false; WithIncludeBuiltins true;
             WithMaxUnwrap 2; WithMaxUnwrap 5;
             WithMapPreferElem false; WithMapPreferElem true]
    = mkConfig true 5 true.
Proof. repeat split. Qed.

End ConfigProperties.

(** ** Registry: invariants, round trips and frames *)

Section RegistryMore.
Import registry.

Lemma Register_cases (t : option rtype) (name : string) (r : registry) :
  (t = None /\ Register t name r = (Some ErrNilType, r)) \/
  (t <> None /\ name = "" /\ Register t name r = (Some ErrEmptyName, r)) \/
  (t <> None /\ name <> "" /\
     ((exists e, Normalize t (cfg r) = Err e /\
                 Register t name r = (Some e, r)) \/
      (exists b, Normalize t (cfg r) = Ok b /\
         ((m r !! b = Some name /\ Register t name r = (None, r)) \/
          (exists old, m r !! b = Some old /\ old <> name /\
                       Register t name r = (Some ErrConflictingRegistration, r)) \/
          (m r !! b = None /\
           Register t name r =
             (None, {| cfg := cfg r; m := <[b := name]> (m r);
                       count := count r + 1 |})))))).
Proof.
  destruct t as [t |]; [| left; split; reflexivity].
  right. unfold Register.
  destruct (String.eqb_spec name "") as [-> | Hname].
  - left. repeat split. discriminate.
  - right. split; [discriminate |]. split; [exact Hname |].
    destruct (Normalize (Some t) (cfg r)) as [b | e].
    + right. exists b. split; [reflexivity |].
      destruct (m r !! b) as [old |] eqn:Hb.
      * destruct (String.eqb_spec old name) as [-> | Hne].
        -- left. split; reflexivity.
        -- right; left. exists old. repeat split. exact Hne.
      * right; right. split; reflexivity.
    + left. exists e. split; reflexivity.
Qed.

Lemma New_ok (c : Config) : registry_ok (New c).
Proof.
  unfold registry_ok, New. cbn. split; [| split].
  - rewrite map_size_empty. reflexivity.
  - intros k x H. rewrite lookup_empty in H. discriminate.
  - destruct (Z.leb_spec (MaxUnwrap c) 0); cbn; unfold DefaultMaxUnwrap; lia.
Qed.

Lemma Register_ok (t : option rtype) (name : string) (r : registry) :
  registry_ok r -> registry_ok (Register t name r).2.
Proof.
  intros (Hc & Hk & Hm).
  destruct (Register_cases t name r)
    as [[_ ->] | [(_ & _ & ->) | (_ & Hname & [(e & _ & ->) | (b & Hn & H)])]];
    try (split; [| split]; assumption).
  destruct H as [[_ ->] | [(old & _ & _ & ->) | [Hb ->]]];
    try (split; [| split]; assumption).
  unfold registry_ok. cbn [snd cfg m count]. split; [| split].
  - rewrite map_size_insert_None by exact Hb. lia.
  - intros k x. destruct (decide (b = k)) as [<- | Hne].
    + rewrite lookup_insert_eq. intros [= <-]. split; [| exact Hname].
      destruct t as [t0 |]; [| discriminate Hn].
      rewrite Normalize_unfold in Hn. exact (unwrap_from_named _ _ _ _ _ Hn).
    + rewrite lookup_insert_ne by exact Hne. apply Hk.
  - exact Hm.
Qed.

Lemma Reset_ok (r : registry) : registry_ok r -> registry_ok (Reset r).
Proof.
  intros (_ & _ & Hm). unfold registry_ok, Reset. cbn. split; [| split].
  - rewrite map_size_empty. reflexivity.
  - intros k x H. rewrite lookup_empty in H. discriminate.
  - exact Hm.
Qed.

Lemma built_ok (r : registry) : built r -> registry_ok r.
Proof.
  induction 1 as [c | c r _ IH].
  - apply New_ok.
  - destruct c as [t name | t | | |]; cbn.
    + pose proof (Register_ok t name r IH) as H.
      destruct (Register t name r). exact H.
    + destruct (Lookup t r). exact IH.
    + exact IH.
    + exact IH.
    + apply Reset_ok, IH.
Qed.

Lemma length_Entries (r : registry) : length (Entries r) = size (m r).
Proof. unfold Entries. rewrite length_fmap. apply length_map_to_list. Qed.

Lemma elem_of_Entries (r : registry) (k : rtype) (x : string) :
  mkEntry k x ∈ Entries r <-> m r !! k = Some x.
Proof.
  unfold Entries. rewrite list_elem_of_fmap. split.
  - intros ([k' x'] & [= -> ->] & Hin). by apply elem_of_map_to_list.
  - intros H. exists (k, x). split; [reflexivity |].
    by apply elem_of_map_to_list.
Qed.

(** X6. In a registry made by [New] and changed by method calls only, the
    counter is the number of entries: [Count()] equals the length of
    [Entries()]. *)
Theorem Count_is_number_of_entries (r : registry) :
  built r -> Count r = Z.of_nat (length (Entries r)).
Proof.
  intros Hb. destruct (built_ok r Hb) as (Hc & _ & _).
  unfold Count. rewrite length_Entries. exact Hc.
Qed.

Lemma Count_is_number_of_entries_witness :
  let r := (Register (Some (TOther "user" "pkg")) "x" (New DefaultConfig)).2 in
  Count r = Z.of_nat (length (Entries r)).
Proof.
  intros r. apply Count_is_number_of_entries.
  exact (built_call (CallRegister (Some (TOther "user" "pkg")) "x")
           (New DefaultConfig) (built_New DefaultConfig)).
Defined.

(** X7. In such a registry every entry has a named type and a non-empty
    name, no type has two entries, and [Lookup] returns a non-empty name
    exactly when it reports the type as found. *)
Theorem entries_named_and_unique (r : registry) :
  built r ->
  (forall e, e ∈ Entries r -> named (Type_ e) = true /\ Name_ e <> "") /\
  NoDup (Type_ <$> Entries r) /\
  (forall t, (Lookup t r).2 = true <-> (Lookup t r).1 <> "").
Proof.
  intros Hb. destruct (built_ok r Hb) as (_ & Hk & _).
  split; [| split].
  - intros [k x] He. apply elem_of_Entries in He. exact (Hk k x He).
  - unfold Entries. rewrite <- list_fmap_compose.
    apply (NoDup_fst_map_to_list (m r)).
  - intros t. unfold Lookup. destruct t as [t |]; [| cbn; split; [discriminate | tauto]].
    destruct (Normalize (Some t) (cfg r)) as [b | e];
      [| cbn; split; [discriminate | tauto]].
    destruct (m r !! b) as [x |] eqn:Hx; cbn.
    + split; [intros _; exact (proj2 (Hk b x Hx)) | reflexivity].
    + split; [discriminate | tauto].
Qed.

Lemma entries_named_and_unique_witness :
  let r := (Register (Some (wrap Ptr (TOther "user" "pkg"))) "x"
              (New DefaultConfig)).2 in
  (Lookup (Some (TOther "user" "pkg")) r).1 <> "".
Proof.
  intros r.
  assert (Hb : built r).
  { exact (built_call (CallRegister (Some (wrap Ptr (TOther "user" "pkg"))) "x")
             (New DefaultConfig) (built_New DefaultConfig)). }
  destruct (entries_named_and_unique r Hb) as (_ & _ & H).
  apply H. reflexivity.
Defined.

(** X8. A [Register] that returns an error leaves the registry as it was,
    and the error tells why, in the order of the checks: [ErrNilType] for a
    nil descriptor (whatever the name), else [ErrEmptyName] for an empty name
    (whatever the type), else the error of [Normalize], else
    [ErrConflictingRegistration], and then the normalized type is bound to a
    different name. *)
Theorem Register_error_leaves_registry
    (t : option rtype) (name : string) (r r' : registry) (e : error) :
  Register t name r = (Some e, r') ->
  r' = r /\
  match t with
  | None => e = ErrNilType
  | Some _ =>
      if String.eqb name "" then e = ErrEmptyName
      else
        match Normalize t (cfg r) with
        | Err e' => e = e'
        | Ok b =>
            e = ErrConflictingRegistration /\
            exists old, m r !! b = Some old /\ old <> name
        end
  end.
Proof.
  intros H.
  destruct (Register_cases t name r)
    as [[-> Hr] | [(Ht & -> & Hr)
                  | (Ht & Hname & [(e' & Hn & Hr) | (b & Hn & Hb)])]].
  - rewrite Hr in H. injection H as <- <-. split; reflexivity.
  - rewrite Hr in H. injection H as <- <-.
    destruct t; [| contradiction]. split; reflexivity.
  - rewrite Hr in H. injection H as <- <-.
    destruct t; [| contradiction]. rewrite Hn.
    destruct (String.eqb_spec name ""); [contradiction |]. split; reflexivity.
  - destruct t; [| contradiction]. rewrite Hn.
    destruct (String.eqb_spec name ""); [contradiction |].
    destruct Hb as [[_ Hr] | [(old & Hold & Hne & Hr) | [_ Hr]]];
      rewrite Hr in H; try discriminate H.
    injection H as <- <-. repeat split. exists old. split; assumption.
Qed.

Lemma Register_error_leaves_registry_witness :
  let r := (Register (Some (TOther "user" "pkg")) "x" (New DefaultConfig)).2 in
  (Register None "" r).2 = r /\
  (Register (Some (TOther "" "")) "" r).1 = Some ErrEmptyName /\
  (Register (Some (wrap Slice (TOther "user" "pkg"))) "y" r).2 = r.
Proof.
  intros r. split; [| split].
  - exact (proj1 (Register_error_leaves_registry None "" r _ ErrNilType eq_refl)).
  - reflexivity.
  - exact (proj1 (Register_error_leaves_registry
                    (Some (wrap Slice (TOther "user" "pkg"))) "y" r _
                    ErrConflictingRegistration eq_refl)).
Defined.

Lemma Register_cfg (t : option rtype) (name : string) (r : registry) :
  cfg (Register t name r).2 = cfg r.
Proof.
  destruct (Register_cases t name r)
    as [[_ ->] | [(_ & _ & ->) | (_ & _ & [(e & _ & ->) | (b & _ & H)])]];
    try reflexivity.
  destruct H as [[_ ->] | [(old & _ & _ & ->) | [_ ->]]]; reflexivity.
Qed.

(** X9. After a [Register(T, x)] that returned nil, [Lookup] finds [x] for
    [T] and for every descriptor that normalizes, under the registry's
    config, to the same type as [T] (a pointer to it, a slice of it, ...). *)
Theorem Register_then_Lookup
    (T T' : rtype) (x : string) (r r' : registry) :
  Register (Some T) x r = (None, r') ->
  Normalize (Some T') (cfg r) = Normalize (Some T) (cfg r) ->
  Lookup (Some T) r' = (x, true) /\ Lookup (Some T') r' = (x, true).
Proof.
  intros H Heq.
  assert (Hcfg : cfg r' = cfg r).
  { pose proof (Register_cfg (Some T) x r) as Hc. rewrite H in Hc. exact Hc. }
  assert (Hb : exists b, Normalize (Some T) (cfg r) = Ok b /\ m r' !! b = Some x).
  { destruct (Register_cases (Some T) x r)
      as [[Hnil _] | [(_ & _ & Hr) | (_ & _ & [(e & _ & Hr) | (b & Hn & Hb)])]];
      try discriminate Hnil; try (rewrite Hr in H; discriminate H).
    exists b. split; [exact Hn |].
    destruct Hb as [[Hb Hr] | [(old & _ & _ & Hr) | [_ Hr]]];
      rewrite Hr in H; try discriminate H; injection H as <-.
    - exact Hb.
    - cbn. apply lookup_insert_eq. }
  destruct Hb as (b & Hn & Hb).
  unfold Lookup. rewrite Hcfg, Heq, Hn, Hb. split; reflexivity.
Qed.

Lemma Register_then_Lookup_witness :
  let T := TOther "user" "pkg" in
  let r' := (Register (Some (wrap Ptr T)) "domain.user" (New DefaultConfig)).2 in
  Lookup (Some (wrap Ptr T)) r' = ("domain.user", true) /\
  Lookup (Some (map_of (TOther "" "") (wrap Slice T))) r' = ("domain.user", true).
Proof.
  intros T r'.
  apply (Register_then_Lookup (wrap Ptr T) _ "domain.user" (New DefaultConfig));
    reflexivity.
Defined.

(** X10. [Register] touches one type only: for a descriptor that does not
    normalize to the same result as the registered one, [Lookup] answers
    after the call what it answered before, whether the call stored
    something or failed. *)
Theorem Register_frame
    (t t' : option rtype) (name : string) (r : registry) :
  Normalize t' (cfg r) <> Normalize t (cfg r) ->
  Lookup t' (Register t name r).2 = Lookup t' r.
Proof.
  intros Hne.
  destruct (Register_cases t name r)
    as [[_ ->] | [(_ & _ & ->) | (_ & _ & [(e & _ & ->) | (b & Hn & H)])]];
    try reflexivity.
  destruct H as [[_ ->] | [(old & _ & _ & ->) | [_ ->]]]; try reflexivity.
  unfold Lookup; cbn. destruct t' as [t' |]; [| reflexivity].
  destruct (Normalize (Some t') (cfg r)) as [b' | e'] eqn:Hn'; [| reflexivity].
  rewrite lookup_insert_ne; [reflexivity |].
  intros ->. apply Hne. rewrite Hn. reflexivity.
Qed.

Lemma Register_frame_witness :
  let r := (Register (Some (TOther "user" "pkg")) "x" (New DefaultConfig)).2 in
  Lookup (Some (TOther "user" "pkg"))
    (Register (Some (TOther "order" "pkg")) "y" r).2 = ("x", true).
Proof.
  intros r.
  rewrite (Register_frame (Some (TOther "order" "pkg"))
             (Some (TOther "user" "pkg")) "y" r); [reflexivity |].
  vm_compute. discriminate.
Defined.

(** X11. [Reset] forgets every entry and keeps the config: afterwards
    [Lookup] finds nothing, [Count] is zero, [Entries] is empty, and a name
    that conflicted before can be registered. *)
Theorem Reset_forgets_everything (r : registry) :
  cfg (Reset r) = cfg r /\
  Count (Reset r) = 0 /\
  Entries (Reset r) = [] /\
  (forall t, Lookup t (Reset r) = ("", false)) /\
  (forall T b name,
      Normalize (Some T) (cfg r) = Ok b -> name <> "" ->
      (Register (Some T) name (Reset r)).1 = None /\
      Lookup (Some T) (Register (Some T) name (Reset r)).2 = (name, true)).
Proof.
  split; [reflexivity |]. split; [reflexivity |].
  split; [unfold Entries, Reset; cbn; rewrite map_to_list_empty; reflexivity |].
  split.
  - intros t. unfold Lookup, Reset; cbn. destruct t as [t |]; [| reflexivity].
    destruct (Normalize (Some t) (cfg r)); [| reflexivity].
    rewrite lookup_empty. reflexivity.
  - intros T b name Hn Hname.
    assert (Hb : m (Reset r) !! b = None) by apply lookup_empty.
    rewrite (Register_unbound T b name (Reset r) Hn Hname Hb).
    cbn [fst snd]. split; [reflexivity |].
    unfold Lookup. cbn [cfg m Reset]. rewrite Hn, lookup_insert_eq.
    reflexivity.
Qed.

Lemma Reset_forgets_everything_witness :
  let T := TOther "user" "pkg" in
  let r := (Register (Some T) "x" (New DefaultConfig)).2 in
  (Register (Some T) "y" r).1 = Some ErrConflictingRegistration /\
  (Register (Some T) "y" (Reset r)).1 = None /\
  Lookup (Some T) (Register (Some T) "y" (Reset r)).2 = ("y", true).
Proof.
  intros T r. split; [reflexivity |].
  destruct (Reset_forgets_everything r) as (_ & _ & _ & _ & H).
  apply (H T T "y"); [reflexivity | discriminate].
Defined.

(** X12. [New] replaces a non-positive [MaxUnwrap] by the default, which is
    what [Normalize] does itself: a registry made by [New(c)] normalizes
    every descriptor as [Normalize] does under [c]; it starts empty. *)
Theorem New_normalizes_as_config (c : Config) :
  (forall t, Normalize t (cfg (New c)) = Normalize t c) /\
  Count (New c) = 0 /\ Entries (New c) = [] /\
  (forall t, Lookup t (New c) = ("", false)).
Proof.
  split; [| split; [| split]].
  - intros [t |]; [| reflexivity].
    rewrite !Normalize_unfold. unfold New, budget; cbn.
    destruct (Z.leb_spec (MaxUnwrap c) 0) as [H | H]; cbn; [reflexivity |].
    destruct (Z.leb_spec (MaxUnwrap c) 0); [lia | reflexivity].
  - reflexivity.
  - unfold Entries, New; cbn. rewrite map_to_list_empty. reflexivity.
  - intros t. unfold Lookup. destruct t as [t |]; [| reflexivity].
    destruct (Normalize (Some t) (cfg (New c))); [| reflexivity].
    unfold New; cbn. rewrite lookup_empty. reflexivity.
Qed.

End RegistryMore.

(** ** The reflective fallback: names and memoization *)

Section ReflectMore.
Import strategy.

Lemma IndexByte_range (s : string) (c : ascii) :
  IndexByte s c = -1 \/ 0 <= IndexByte s c.
Proof.
  induction s as [| a s IH]; cbn [IndexByte]; [left; reflexivity |].
  destruct (Ascii.eqb a c); [right; lia |].
  destruct (Z.ltb_spec (IndexByte s c) 0); [left; reflexivity | right; lia].
Qed.

(** At a non-negative index, [s[:i]] has no [c] and [s] goes on with [c]. *)
Lemma IndexByte_split (s : string) (c : ascii) :
  0 <= IndexByte s c ->
  IndexByte (slice_to s (IndexByte s c)) c = -1 /\
  exists rest, s = slice_to s (IndexByte s c) +:+ String c rest.
Proof.
  unfold slice_to.
  induction s as [| a s IH]; cbn [IndexByte]; [lia |].
  destruct (Ascii.eqb_spec a c) as [-> | Hne].
  - intros _. cbn. split; [reflexivity | by exists s].
  - destruct (Z.ltb_spec (IndexByte s c) 0) as [Hlt | Hge]; [lia |].
    intros _. destruct (IH Hge) as (Hno & rest & Hrest).
    replace (Z.to_nat (IndexByte s c + 1)) with (S (Z.to_nat (IndexByte s c)))
      by lia.
    cbn [substring IndexByte].
    destruct (Ascii.eqb_spec a c); [contradiction |].
    rewrite Hno. cbn. split; [reflexivity |].
    exists rest. rewrite Hrest at 1. reflexivity.
Qed.

Lemma IndexByte_app_first (base rest : string) (c : ascii) :
  IndexByte base c = -1 ->
  IndexByte (base +:+ String c rest) c = Z.of_nat (String.length base) /\
  slice_to (base +:+ String c rest) (Z.of_nat (String.length base)) = base.
Proof.
  unfold slice_to. rewrite Nat2Z.id.
  induction base as [| a base IH].
  - intros _. change ("" +:+ String c rest) with (String c rest).
    cbn [IndexByte]. rewrite Ascii.eqb_refl. split; reflexivity.
  - change (String a base +:+ String c rest)
      with (String a (base +:+ String c rest)).
    cbn [IndexByte String.length substring].
    destruct (Ascii.eqb a c); [discriminate |].
    destruct (Z.ltb_spec (IndexByte base c) 0) as [Hlt | Hge]; [| lia].
    intros _. destruct (IndexByte_range base c) as [Hno | ?]; [| lia].
    destruct (IH Hno) as [Hi Hs]. rewrite Hi.
    destruct (Z.ltb_spec (Z.of_nat (String.length base)) 0); [lia |].
    split; [lia |]. f_equal. exact Hs.
Qed.

(** X13. [stripTypeParams] returns the part of the name before its first
    `[`: the result has no `[`, the name starts with it, a name without `[`
    comes back unchanged, and `Base[Args]` gives `Base`. *)
Theorem stripTypeParams_cuts_at_bracket (s : string) :
  IndexByte (stripTypeParams s) "[" = -1 /\
  (exists rest, s = stripTypeParams s +:+ rest) /\
  (IndexByte s "[" = -1 -> stripTypeParams s = s) /\
  (forall base args,
      IndexByte base "[" = -1 ->
      stripTypeParams (base +:+ String "[" args) = base).
Proof.
  unfold stripTypeParams.
  split; [| split; [| split]].
  - destruct (Z.leb_spec 0 (IndexByte s "[")) as [Hge | Hlt].
    + exact (proj1 (IndexByte_split s "[" Hge)).
    + destruct (IndexByte_range s "["); [assumption | lia].
  - destruct (Z.leb_spec 0 (IndexByte s "[")) as [Hge | Hlt].
    + destruct (IndexByte_split s "[" Hge) as (_ & rest & Hrest).
      exists (String "[" rest). exact Hrest.
    + exists "". clear. induction s as [| a s IH]; [reflexivity |].
      change (String a s +:+ "") with (String a (s +:+ "")).
      rewrite <- IH. reflexivity.
  - intros ->. reflexivity.
  - intros base args Hno.
    destruct (IndexByte_app_first base args "[" Hno) as [-> Hs].
    destruct (Z.leb_spec 0 (Z.of_nat (String.length base))); [exact Hs | lia].
Qed.

Lemma stripTypeParams_cuts_at_bracket_witness :
  stripTypeParams "Pair[int,string]" = "Pair" /\
  stripTypeParams "Order" = "Order".
Proof.
  split.
  - apply (proj2 (proj2 (proj2 (stripTypeParams_cuts_at_bracket "")))
             "Pair" "int,string]").
    reflexivity.
  - apply (proj1 (proj2 (proj2 (stripTypeParams_cuts_at_bracket "Order")))).
    reflexivity.
Defined.

(** X14. Memoization only adds: a call of [byType] keeps every entry of the
    cache as it was and adds at most the entry of its own key; calling again
    with the same type and config returns the same name and leaves the cache
    as the first call left it. *)
Theorem byType_memoizes (ty : option rtype) (cfg : Config) (c : cache) :
  let '(name, c') := byType ty cfg c in
  c ⊆ c' /\
  c' !! key_of ty cfg = Some name /\
  (forall k, k <> key_of ty cfg -> c' !! k = c !! k) /\
  byType ty cfg c' = (name, c').
Proof.
  destruct (c !! key_of ty cfg) as [v |] eqn:Hk.
  - rewrite (byType_hit _ _ _ _ Hk).
    split; [reflexivity |]. split; [exact Hk |]. split; [reflexivity |].
    apply byType_hit, Hk.
  - rewrite (byType_miss _ _ _ Hk).
    split; [apply insert_subseteq, Hk |].
    split; [apply lookup_insert_eq |].
    split; [intros k Hne; apply lookup_insert_ne; congruence |].
    apply byType_hit, lookup_insert_eq.
Qed.

(** X15. Memoization is faithful while every [MaxUnwrap] in use fits in 16
    bits: along any sequence of [byType] calls under such configs, starting
    from the empty cache, each call returns the name that normalizing and
    formatting under its own config gives, whether it was memoized or not,
    and whatever was asked before. *)
Theorem memoized_name_is_direct_name
    (ty : option rtype) (cfg : Config) (c : cache) :
  cache_from (fun cfg => fits_int16 (MaxUnwrap cfg)) c ->
  fits_int16 (MaxUnwrap cfg) ->
  (byType ty cfg c).1 = direct_name ty cfg /\
  cache_from (fun cfg => fits_int16 (MaxUnwrap cfg)) (byType ty cfg c).2.
Proof.
  intros Hc Hf. split.
  - apply byType_faithful_within_int16; assumption.
  - apply cache_from_step; assumption.
Qed.

Lemma memoized_name_is_direct_name_witness :
  let ty := Some (wraps [Ptr; Ptr] (TOther "A" "dirpx.dev/rfx/strategy")) in
  let c1 := (byType ty (mkConfig true 1 true) ∅).2 in
  (byType ty (mkConfig true 2 true) c1).1 = "strategy.A".
Proof.
  intros ty c1.
  rewrite (proj1 (memoized_name_is_direct_name ty (mkConfig true 2 true) c1
                    ltac:(apply cache_from_step;
                          [apply cache_from_init
                          | unfold fits_int16; simpl; lia])
                    ltac:(unfold fits_int16; simpl; lia))).
  reflexivity.
Defined.

Lemma direct_name_Ok (ty : option rtype) (cfg : Config) (base : rtype) :
  Normalize ty cfg = Ok base ->
  direct_name ty cfg =
    if negb (String.eqb (PkgPath base) "")
    then Base (PkgPath base) +:+ "." +:+ stripTypeParams (Name base)
    else if negb (IncludeBuiltins cfg) then ""
    else stripTypeParams (Name base).
Proof.
  intros H. unfold direct_name, byType. rewrite lookup_empty, H. reflexivity.
Qed.

Lemma append_dot_not_empty (a b : string) : a +:+ "." +:+ b <> "".
Proof. destruct a; discriminate. Qed.

(** X16. The name computed for a type is empty when normalization fails,
    and empty for a type without package path when [IncludeBuiltins] is
    off; for a type with a package path it is never empty and does not
    depend on [IncludeBuiltins]. *)
Theorem direct_name_builtins (ty : option rtype) (cfg : Config) :
  match Normalize ty cfg with
  | Err _ => direct_name ty cfg = ""
  | Ok base =>
      (PkgPath base = "" -> IncludeBuiltins cfg = false ->
         direct_name ty cfg = "") /\
      (PkgPath base = "" -> IncludeBuiltins cfg = true ->
         direct_name ty cfg = stripTypeParams (Name base)) /\
      (PkgPath base <> "" ->
         direct_name ty cfg <> "" /\
         forall b,
           direct_name ty (mkConfig b (MaxUnwrap cfg) (MapPreferElem cfg))
             = direct_name ty cfg)
  end.
Proof.
  destruct (Normalize ty cfg) as [base | e] eqn:Hn.
  - rewrite (direct_name_Ok _ _ _ Hn).
    split; [| split].
    + intros -> ->. reflexivity.
    + intros -> ->. reflexivity.
    + intros Hp. destruct (String.eqb_spec (PkgPath base) ""); [contradiction |].
      cbn [negb]. split; [apply append_dot_not_empty |].
      intros b.
      assert (Hn' : Normalize ty (mkConfig b (MaxUnwrap cfg) (MapPreferElem cfg))
                    = Ok base).
      { rewrite <- Hn. destruct ty; reflexivity. }
      rewrite (direct_name_Ok _ _ _ Hn').
      destruct (String.eqb_spec (PkgPath base) ""); [contradiction |].
      reflexivity.
  - apply (direct_name_Err _ _ _ Hn).
Qed.

Lemma direct_name_builtins_witness :
  direct_name (Some (wrap Slice (TOther "string" ""))) (mkConfig false 8 true) = "" /\
  direct_name (Some (wrap Slice (TOther "string" ""))) (mkConfig true 8 true)
    = "string" /\
  direct_name (Some (TOther "G[int]" "dirpx.dev/rfx/strategy"))
    (mkConfig false 8 true) <> "".
Proof.
  split; [| split].
  - pose proof (direct_name_builtins (Some (wrap Slice (TOther "string" "")))
                  (mkConfig false 8 true)) as H.
    cbn in H. apply (proj1 H); reflexivity.
  - pose proof (direct_name_builtins (Some (wrap Slice (TOther "string" "")))
                  (mkConfig true 8 true)) as H.
    cbn in H. apply (proj1 (proj2 H)); reflexivity.
  - pose proof (direct_name_builtins
                  (Some (TOther "G[int]" "dirpx.dev/rfx/strategy"))
                  (mkConfig false 8 true)) as H.
    cbn in H. apply (proj2 (proj2 H)). discriminate.
Defined.

End ReflectMore.

(** ** The default builder *)

Section BuilderProperties.
Import rfx builder.

Local Abbreviation dmachine' :=
  (rfx.machine builder.addr builder.addr string builder.heap).
Local Abbreviation dop' :=
  (rfx.op builder.addr builder.addr string builder.heap).

Lemma alloc_registry_spec (r : registry.registry) (h : heap) :
  heap_ok h ->
  let '(a, h') := alloc_registry r h in
  a = next_registry h /\
  registries h !! a = None /\
  registries h' = <[a := r]> (registries h) /\
  resolvers h' = resolvers h /\
  heap_ok h' /\ heap_extends h h'.
Proof.
  intros [Hr Hx]. cbn.
  assert (Hfree : registries h !! next_registry h = None).
  { destruct (registries h !! next_registry h) eqn:E; [| reflexivity].
    pose proof (Hr _ (mk_is_Some _ _ E)). lia. }
  repeat split; cbn; try assumption.
  - intros a. destruct (decide (next_registry h = a)) as [<- | Hne].
    + lia.
    + rewrite lookup_insert_ne by exact Hne. intros H. pose proof (Hr a H). lia.
  - apply insert_subseteq, Hfree.
  - reflexivity.
Qed.

Lemma alloc_resolver_spec (c : chain) (h : heap) :
  heap_ok h ->
  let '(a, h') := alloc_resolver c h in
  a = next_resolver h /\
  resolvers h !! a = None /\
  resolvers h' = <[a := c]> (resolvers h) /\
  registries h' = registries h /\
  heap_ok h' /\ heap_extends h h'.
Proof.
  intros [Hr Hx]. cbn.
  assert (Hfree : resolvers h !! next_resolver h = None).
  { destruct (resolvers h !! next_resolver h) eqn:E; [| reflexivity].
    pose proof (Hx _ (mk_is_Some _ _ E)). lia. }
  repeat split; cbn; try assumption.
  - intros a. destruct (decide (next_resolver h = a)) as [<- | Hne].
    + lia.
    + rewrite lookup_insert_ne by exact Hne. intros H. pose proof (Hx a H). lia.
  - reflexivity.
  - apply insert_subseteq, Hfree.
Qed.

(** X17. On a well-formed heap, both methods of the default builder return
    a non-nil reference to an object that was not there before, and leave
    every object of the heap as it was; the resolver made is the chain
    namer, registry, reflect over the registry given. *)
Theorem default_builder_makes_new_objects
    (cfg : Config) (prev_reg reg prev_res : option addr) (e : option string)
    (h : heap) :
  heap_ok h ->
  (exists a h',
      BuildRegistry cfg prev_reg e h = (Some a, h') /\
      registries h !! a = None /\ is_Some (registries h' !! a) /\
      heap_extends h h' /\ heap_ok h') /\
  (exists x h',
      BuildResolver cfg reg prev_res e h = (Some x, h') /\
      resolvers h !! x = None /\
      resolvers h' !! x = Some (default_chain reg) /\
      heap_extends h h' /\ heap_ok h').
Proof.
  intros Hok. split.
  - unfold BuildRegistry.
    match goal with
    | |- context [alloc_registry ?r h] =>
        pose proof (alloc_registry_spec r h Hok) as H;
        destruct (alloc_registry r h) as [a h']
    end.
    destruct H as (_ & Hfree & Hregs & _ & Hok' & Hext).
    exists a, h'. split; [reflexivity |]. split; [exact Hfree |].
    split; [rewrite Hregs, lookup_insert_eq; by eexists |].
    split; assumption.
  - unfold BuildResolver.
    pose proof (alloc_resolver_spec
                  (resolver_New [Some NamerStrategy; Some (RegistryStrategy reg);
                                 Some ReflectStrategy]) h Hok) as H.
    destruct (alloc_resolver _ h) as [x h'].
    destruct H as (_ & Hfree & Hres & _ & Hok' & Hext).
    exists x, h'. split; [reflexivity |]. split; [exact Hfree |].
    split; [rewrite Hres, lookup_insert_eq; reflexivity |].
    split; assumption.
Qed.

Lemma heap_ok_empty : heap_ok empty_heap.
Proof.
  split; intros a [y Hy]; cbn in Hy; rewrite lookup_empty in Hy; discriminate.
Qed.

Lemma BuildRegistry_ok (cfg : Config) (prev : option addr) (e : option string)
    (h : heap) :
  heap_ok h -> heap_ok (BuildRegistry cfg prev e h).2.
Proof.
  intros Hok.
  destruct (alloc_registry_spec
              (match prev with
               | Some a =>
                   foldl (fun r e =>
                            (registry.Register (Some (registry.Type_ e))
                               (registry.Name_ e) r).2)
                         (registry.New cfg) (entries_of h a)
               | None => registry.New cfg
               end) h Hok) as (_ & _ & _ & _ & H & _).
  exact H.
Qed.

Lemma BuildResolver_ok (cfg : Config) (reg prev : option addr)
    (e : option string) (h : heap) :
  heap_ok h -> heap_ok (BuildResolver cfg reg prev e h).2.
Proof.
  intros Hok.
  destruct (alloc_resolver_spec (default_chain reg) h Hok)
    as (_ & _ & _ & _ & H & _).
  exact H.
Qed.

Lemma start_heap_ok : heap_ok (world start).
Proof.
  change (world start) with
    (BuildResolver DefaultConfig
       (BuildRegistry DefaultConfig None None empty_heap).1 None None
       (BuildRegistry DefaultConfig None None empty_heap).2).2.
  apply BuildResolver_ok, BuildRegistry_ok, heap_ok_empty.
Qed.

Lemma default_builder_makes_new_objects_witness :
  let h := world start in
  (exists a h',
      BuildRegistry DefaultConfig (Some 0%nat) None h = (Some a, h') /\
      registries h !! a = None) /\
  (exists x h',
      BuildResolver DefaultConfig (Some 0%nat) (Some 0%nat) None h = (Some x, h') /\
      resolvers h' !! x = Some (default_chain (Some 0%nat))).
Proof.
  intros h.
  destruct (default_builder_makes_new_objects DefaultConfig (Some 0%nat)
              (Some 0%nat) (Some 0%nat) None h start_heap_ok)
    as [(a & h1 & H1 & Hf & _) (x & h2 & H2 & _ & Hc & _)].
  split.
  - exists a, h1. split; assumption.
  - exists x, h2. split; assumption.
Defined.

Lemma named_plain_normalizes (k : rtype) (cfg : Config) :
  kind_of k = KOther -> named k = true -> Normalize (Some k) cfg = Ok k.
Proof.
  intros Hk Hn. destruct (kind_other_inv k Hk) as (n & p & ->).
  apply Normalize_plain. intros ->. discriminate Hn.
Qed.

(** Registering again, one after the other, entries with distinct plain
    types that the registry does not have yet. *)
Lemma migrate_entries (l : list (rtype * string)) :
  NoDup l.*1 ->
  (forall k x, (k, x) ∈ l -> kind_of k = KOther /\ named k = true /\ x <> "") ->
  forall r0 : registry.registry,
    (forall k, k ∈ l.*1 -> registry.m r0 !! k = None) ->
    let r' :=
      foldl (fun r e =>
               (registry.Register (Some (registry.Type_ e))
                  (registry.Name_ e) r).2)
            r0 ((fun kv => registry.mkEntry kv.1 kv.2) <$> l) in
    registry.cfg r' = registry.cfg r0 /\
    registry.m r' = list_to_map l ∪ registry.m r0 /\
    registry.count r' = registry.count r0 + Z.of_nat (length l).
Proof.
  induction l as [| [k x] l IH]; intros Hnd Hl r0 Hfree; cbn zeta.
  - cbn. split; [reflexivity |]. split; [| lia].
    rewrite (left_id_L ∅ (∪)). reflexivity.
  - rewrite fmap_cons. cbn [foldl registry.Type_ registry.Name_ fst snd].
    apply NoDup_cons in Hnd as [Hk Hnd].
    destruct (Hl k x) as (Hkind & Hnamed & Hx); [left |].
    assert (Hfree_k : registry.m r0 !! k = None) by (apply Hfree; left).
    rewrite (Register_unbound k k x r0
               (named_plain_normalizes k _ Hkind Hnamed) Hx Hfree_k).
    cbn [snd].
    set (r1 := {| registry.cfg := registry.cfg r0;
                  registry.m := <[k := x]> (registry.m r0);
                  registry.count := registry.count r0 + 1 |}).
    destruct (IH Hnd (fun k' x' H => Hl k' x' (list_elem_of_further _ _ _ H)) r1)
      as (Hc & Hm & Hn).
    { intros k' Hk'. subst r1; cbn.
      rewrite lookup_insert_ne by (intros ->; contradiction).
      apply Hfree. right. exact Hk'. }
    split; [exact Hc |]. split.
    + rewrite Hm. subst r1; cbn [registry.m list_to_map foldr uncurry].
      change (list_to_map ((k, x) :: l)) with (<[k := x]> (list_to_map l : gmap rtype string)).
      rewrite <- insert_union_l. cbn [fst snd].
      symmetry. apply insert_union_r. by apply not_elem_of_list_to_map_1.
    + rewrite Hn. subst r1; cbn [registry.count length]. lia.
Qed.

(** X18. Rebuilding the registry keeps the registrations of plain types:
    when every type registered in the previous registry is of a kind that is
    not unwrapped, [BuildRegistry] makes a new registry object with exactly
    the entries of the previous one and the same count, under the new
    config; the previous registry is left as it was. *)
Theorem BuildRegistry_migrates_plain_entries
    (cfg : Config) (a : addr) (e : option string) (h : heap)
    (r : registry.registry) :
  heap_ok h ->
  registries h !! a = Some r ->
  registry.registry_ok r ->
  registry.plain_keys r ->
  exists a' h' r',
    BuildRegistry cfg (Some a) e h = (Some a', h') /\
    a' <> a /\
    registries h' !! a = Some r /\
    registries h' !! a' = Some r' /\
    registry.cfg r' = registry.cfg (registry.New cfg) /\
    registry.m r' = registry.m r /\
    registry.Count r' = registry.Count r.
Proof.
  intros Hok Ha (Hcount & Hkeys & _) Hplain.
  unfold BuildRegistry, entries_of. rewrite Ha.
  unfold registry.Entries at 1.
  pose proof (migrate_entries (map_to_list (registry.m r))
                (NoDup_fst_map_to_list _)) as Hmig.
  cbn zeta in Hmig.
  destruct (Hmig (fun k x H =>
                    let H' := proj1 (elem_of_map_to_list _ _ _) H in
                    conj (Hplain k x H') (Hkeys k x H'))
                 (registry.New cfg))
    as (Hc & Hm & Hn).
  { intros k _. apply lookup_empty. }
  match goal with
  | |- context [alloc_registry ?r' h] =>
      pose proof (alloc_registry_spec r' h Hok) as Hal;
      destruct (alloc_registry r' h) as [a' h'] eqn:Halloc;
      exists a', h', r'
  end.
  destruct Hal as (-> & Hfree & Hregs & _ & _ & _).
  split; [reflexivity |].
  split; [intros Heq; rewrite Heq, Ha in Hfree; discriminate |].
  split; [rewrite Hregs, lookup_insert_ne;
          [exact Ha | intros Heq; rewrite Heq, Ha in Hfree; discriminate] |].
  split; [rewrite Hregs; apply lookup_insert_eq |].
  split; [exact Hc |]. split.
  - rewrite Hm. cbn. rewrite (right_id_L ∅ (∪)). apply list_to_map_to_list.
  - unfold registry.Count. rewrite Hn, Hcount, length_map_to_list. cbn. lia.
Qed.

Lemma BuildRegistry_migrates_plain_entries_witness :
  let user := TOther "user" "pkg" in
  let r := {| registry.cfg := DefaultConfig;
              registry.m := {[ user := "domain.user" ]};
              registry.count := 1 |} in
  let h := (alloc_registry r empty_heap).2 in
  exists a' h' r',
    BuildRegistry (mkConfig false 3 false) (Some 0%nat) None h = (Some a', h') /\
    registries h' !! a' = Some r' /\
    registry.m r' = {[ user := "domain.user" ]}.
Proof.
  intros user r h.
  destruct (BuildRegistry_migrates_plain_entries (mkConfig false 3 false)
              0%nat None h r) as (a' & h' & r' & H & _ & _ & Hr' & _ & Hm & _).
  - pose proof (alloc_registry_spec r empty_heap heap_ok_empty) as H.
    destruct (alloc_registry r empty_heap). apply H.
  - apply lookup_insert_eq.
  - split; [| split].
    + subst r; cbn [registry.count registry.m].
      rewrite map_size_singleton. reflexivity.
    + intros k x Hk. subst r; cbn [registry.m] in Hk.
      apply lookup_singleton_Some in Hk as [<- <-]. split; [reflexivity | discriminate].
    + subst r; cbn. unfold DefaultMaxUnwrap. lia.
  - intros k x Hk. subst r; cbn [registry.m] in Hk.
    apply lookup_singleton_Some in Hk as [<- _]. reflexivity.
  - exists a', h', r'. split; [exact H |]. split; [exact Hr' | exact Hm].
Defined.

(** X19. With the default builder no writer panics: from a snapshot that
    holds the default builder and two non-nil layers, every writer that
    brings no other builder returns, and the snapshot it leaves again holds
    the default builder and two non-nil layers. *)
Theorem default_builder_never_panics (o : dop') (m : dmachine') :
  bld (st m) = New ->
  layers_non_nil (st m) ->
  default_args o ->
  exists m',
    run o m = Done tt m' /\ bld (st m') = New /\ layers_non_nil (st m').
Proof.
  destruct m as [s old w k]; destruct s as [c e r x b p q].
  cbn [st bld]. intros -> [Hr Hx] Ho. cbn [st reg res] in Hr, Hx.
  destruct r as [r |]; [| contradiction]. destruct x as [x |]; [| contradiction].
  destruct o as [c' e' r' x' [b' |] | | [r' |] | [x' |] | [b' |] | | | | |];
    cbn in Ho; subst;
    unfold_run; unfold layers_non_nil; destruct p, q;
    try destruct r'; try destruct x'; cbn;
    eexists; (split; [reflexivity |]); cbn;
    (split; [reflexivity |]); split; discriminate.
Qed.

Lemma default_builder_never_panics_witness :
  exists m',
    run (OpSetBuilder (Some New))
      (exec (OpSetConfig (mkConfig false 0 false)) start) = Done tt m' /\
    layers_non_nil (st m').
Proof.
  destruct (default_builder_never_panics (OpSetBuilder (Some New))
              (exec (OpSetConfig (mkConfig false 0 false)) start))
    as (m' & Hrun & _ & Hl).
  - reflexivity.
  - split; discriminate.
  - reflexivity.
  - exists m'. split; assumption.
Defined.

End BuilderProperties.

(** ** The writers: what they pass to the builder and what they keep *)

Section MachineMore.
Import rfx.
Context {Registry Resolver Ext World : Type}.

Local Abbreviation Builder := (rfx.Builder Registry Resolver Ext World).
Local Abbreviation machine := (rfx.machine Registry Resolver Ext World).
Local Abbreviation call := (rfx.call Registry Resolver Ext World).
Local Abbreviation op := (rfx.op Registry Resolver Ext World).

Ltac calls_are ks :=
  first [ rewrite (new_calls_app _ _ []) by reflexivity
        | erewrite (new_calls_app _ _ [_]) by reflexivity
        | erewrite (new_calls_app _ _ [_; _]) by reflexivity ].

(** X20. [SetAll] is a hard reset of the pin flags: it never returns
    without publishing, and the snapshot it publishes has the registry
    pinned exactly when a registry was passed and the resolver pinned exactly
    when a resolver was passed, whatever the flags were before; the layers
    passed are stored as they are, the extension is always replaced, and a
    nil config or builder keeps the old one. *)
Theorem SetAll_resets_pins
    (c : option Config) (e : option Ext) (r : option Registry)
    (x : option Resolver) (b : option Builder) (m : machine) :
  (forall p q,
      match run (OpSetAll c e r x b) (with_pins p q m),
            run (OpSetAll c e r x b) (with_pins false false m) with
      | Done _ m1, Done _ m2 =>
          st m1 = st m2 /\ world m1 = world m2 /\ calls m1 = calls m2
      | Panic e1 _, Panic e2 _ => e1 = e2
      | _, _ => False
      end) /\
  (forall m',
      run (OpSetAll c e r x b) m = Done tt m' ->
      published m' = st m' :: published m /\
      cfg (st m') = default (cfg (st m)) c /\
      ext (st m') = e /\
      bld (st m') = default (bld (st m)) b /\
      preg (st m') = bool_decide (is_Some r) /\
      pres (st m') = bool_decide (is_Some x) /\
      (is_Some r -> reg (st m') = r) /\
      (is_Some x -> res (st m') = x)).
Proof.
  split.
  - intros p q. destruct m as [s o w k]; destruct s as [? ? ? ? ? ? ?].
    unfold with_pins. unfold_run. machine_cases; repeat split.
  - intros m'. open_machine m; intros H;
      first [ discriminate H | injection H as <- ];
      cbn; repeat split; intros [y Hy]; discriminate Hy.
Qed.

(** X21. A pinned layer is never rebuilt by [SetConfig], [SetExt] or
    [SetBuilder]: with the registry pinned the writer makes no
    [BuildRegistry] call and the registry of the snapshot stays the same
    object; likewise for the resolver.  With both layers pinned and non-nil
    the writer makes no builder call at all, cannot panic, and publishes a
    snapshot with the same layers and flags. *)
Theorem pinned_layers_are_kept (o : op) (m : machine) :
  keeps_pins o ->
  (preg (st m) = true ->
     reg (st (exec o m)) = reg (st m) /\
     existsb is_BuildRegistry (new_calls m (exec o m)) = false) /\
  (pres (st m) = true ->
     res (st (exec o m)) = res (st m) /\
     existsb is_BuildResolver (new_calls m (exec o m)) = false) /\
  (preg (st m) = true -> pres (st m) = true -> layers_non_nil (st m) ->
     run o m = Done tt (exec o m) /\
     new_calls m (exec o m) = [] /\
     published (exec o m) = st (exec o m) :: published m /\
     preg (st (exec o m)) = true /\ pres (st (exec o m)) = true).
Proof.
  destruct o as [| | | | [b |] | | | | |]; try contradiction; intros _;
    (split; [| split]);
    open_machine m; intros;
    try discriminate;
    try match goal with H : _ /\ _ |- _ => destruct H end;
    try contradiction;
    try (repeat split; first [ reflexivity | calls_are ks; reflexivity ]).
Qed.

(** X22. When a writer returns, every builder call it made was made on the
    builder, with the config and with the extension of the snapshot it
    published, was given the layer of the previous snapshot as the previous
    one, and returned the layer that the published snapshot holds; the
    registry given to [BuildResolver] is the registry of the published
    snapshot. *)
Theorem published_layers_built_from_own_fields (o : op) (m m' : machine) :
  run o m = Done tt m' ->
  Forall (call_matches m m') (new_calls m m').
Proof.
  destruct o; open_machine m; intros H;
    first [ discriminate H | injection H as <- ];
    calls_are ks; repeat constructor.
Qed.

(** X23. Unpinning takes effect at the next write: after [UnpinRegistry],
    a [SetConfig], [SetExt] or [SetBuilder] calls [BuildRegistry], and after
    [UnpinResolver] it calls [BuildResolver]; the unpin itself calls
    nothing and keeps both layers. *)
Theorem unpin_rebuilds_at_next_write (o : op) (m : machine) :
  keeps_pins o ->
  (let m1 := exec OpUnpinRegistry m in
   new_calls m m1 = [] /\ reg (st m1) = reg (st m) /\ res (st m1) = res (st m) /\
   existsb is_BuildRegistry (new_calls m1 (exec o m1)) = true) /\
  (let m1 := exec OpUnpinResolver m in
   new_calls m m1 = [] /\ reg (st m1) = reg (st m) /\ res (st m1) = res (st m) /\
   existsb is_BuildResolver (new_calls m1 (exec o m1)) = true).
Proof.
  destruct o as [| | | | [b |] | | | | |]; try contradiction; intros _;
    split; cbn zeta;
    (split; [by apply new_calls_app |]);
    (split; [reflexivity |]); (split; [reflexivity |]);
    open_machine m; calls_are ks; reflexivity.
Qed.

End MachineMore.

Section MachineMoreWitnesses.
Import rfx.

Lemma SetAll_resets_pins_witness :
  let m := exec (OpSetResolver (Some 0%nat)) builder.start in
  let m' := exec (OpSetAll None None None None None) m in
  IsResolverPinned m = true /\ IsResolverPinned m' = false /\
  IsRegistryPinned m' = false /\ Config_ m' = Config_ m.
Proof.
  intros m m'.
  destruct (SetAll_resets_pins None None None None None m) as [_ H].
  destruct (H m' eq_refl) as (_ & Hc & _ & _ & Hp & Hq & _).
  split; [reflexivity |]. split; [exact Hq |]. split; [exact Hp | exact Hc].
Defined.

Lemma pinned_layers_are_kept_witness :
  let m := exec (OpSetResolver (Some 0%nat))
             (exec (OpSetRegistry (Some 0%nat)) builder.start) in
  let m' := exec (OpSetConfig (mkConfig false 3 false)) m in
  Registry_ m' = Some 0%nat /\ Resolver_ m' = Some 0%nat /\
  new_calls m m' = [] /\ Config_ m' = mkConfig false 3 false.
Proof.
  intros m m'.
  destruct (pinned_layers_are_kept (OpSetConfig (mkConfig false 3 false)) m I)
    as (Hr & Hx & Hboth).
  destruct (Hr eq_refl) as [Hreg _]. destruct (Hx eq_refl) as [Hres _].
  destruct (Hboth eq_refl eq_refl) as (_ & Hcalls & _).
  { split; discriminate. }
  split; [exact Hreg |]. split; [exact Hres |]. split; [exact Hcalls |].
  reflexivity.
Defined.

Lemma published_layers_built_from_own_fields_witness :
  let m := builder.start in
  let m' := exec (OpSetExt (Some "tenant")) m in
  new_calls m m' =
    [CallBuildResolver builder.New DefaultConfig (Some 1%nat) (Some 0%nat)
       (Some "tenant") (Some 1%nat);
     CallBuildRegistry builder.New DefaultConfig (Some 0%nat)
       (Some "tenant") (Some 1%nat)] /\
  Forall (call_matches m m') (new_calls m m').
Proof.
  intros m m'. split.
  - by apply new_calls_app.
  - apply (published_layers_built_from_own_fields (OpSetExt (Some "tenant"))).
    reflexivity.
Defined.

Lemma unpin_rebuilds_at_next_write_witness :
  let m := exec (OpSetRegistry (Some 0%nat)) builder.start in
  let m1 := exec OpUnpinRegistry m in
  existsb is_BuildRegistry
    (new_calls m (exec (OpSetConfig (mkConfig true 4 true)) m)) = false /\
  existsb is_BuildRegistry
    (new_calls m1 (exec (OpSetConfig (mkConfig true 4 true)) m1)) = true.
Proof.
  intros m m1. split.
  - erewrite (new_calls_app _ _ [_]) by reflexivity. reflexivity.
  - apply (unpin_rebuilds_at_next_write (OpSetConfig (mkConfig true 4 true)) m I).
Defined.

End MachineMoreWitnesses.

(** ** Resolution in the process of the default builder *)

Section ProcessProperties.
Import rfx builder process.

Lemma with_store_id (p : process) : with_store p (store_of p) = p.
Proof. destruct p as [[s o w k] c]. reflexivity. Qed.

Lemma chain_of_default (reg : option addr) :
  chain_of (default_chain reg) =
    {| resolver.strats :=
         [denote NamerStrategy; denote (RegistryStrategy reg);
          denote ReflectStrategy] |}.
Proof. reflexivity. Qed.

(** X24. The order of the default chain.  For a nil value or a nil type it
    returns the empty name.  For a value whose type implements
    [EntityName], [Resolve] returns that name, whatever the registry holds
    and whatever the config.  Otherwise [Resolve] answers as [ResolveType]
    on the type of the value: the registered name when the registry finds
    the type, and else the name of the reflective fallback, memoized.  Only
    the fallback touches the cache. *)
Theorem default_chain_order (reg : option addr) (cfg : Config) (w : store) :
  let c := chain_of (default_chain reg) in
  resolver.Resolve c None cfg w = ("", w) /\
  resolver.ResolveType c None cfg w = ("", w) /\
  (forall x n,
      strategy.EntityName x = Some n ->
      resolver.Resolve c (Some x) cfg w = (n, w)) /\
  (forall x,
      strategy.EntityName x = None ->
      resolver.Resolve c (Some x) cfg w =
      resolver.ResolveType c (Some (strategy.TypeOf x)) cfg w) /\
  (forall ty r n,
      registry_at (heap_of w) reg = Some r ->
      registry.Lookup (Some ty) r = (n, true) ->
      resolver.ResolveType c (Some ty) cfg w = (n, w)) /\
  (forall ty,
      (forall r, registry_at (heap_of w) reg = Some r ->
                 (registry.Lookup (Some ty) r).2 = false) ->
      resolver.ResolveType c (Some ty) cfg w =
        ((strategy.byType (Some ty) cfg (typeNameCache w)).1,
         {| heap_of := heap_of w;
            typeNameCache :=
              (strategy.byType (Some ty) cfg (typeNameCache w)).2 |})).
Proof.
  destruct w as [h cache]. cbn zeta. rewrite chain_of_default.
  unfold resolver.Resolve, resolver.ResolveType.
  cbn [resolver.strats resolver.resolve_from resolver.resolveType_from denote
       resolver.TryResolve resolver.TryResolveType heap_of typeNameCache].
  split; [reflexivity |]. split; [reflexivity |].
  split; [| split; [| split]].
  - intros x n Hn. unfold strategy.namerStrategy_TryResolve. rewrite Hn.
    reflexivity.
  - intros x Hn.
    unfold strategy.namerStrategy_TryResolve,
      strategy.namerStrategy_TryResolveType. rewrite Hn.
    unfold strategy.registryStrategy_TryResolve,
      strategy.registryStrategy_TryResolveType,
      strategy.TryResolve, strategy.TryResolveType.
    reflexivity.
  - intros ty r n Hr Hl.
    unfold strategy.namerStrategy_TryResolveType,
      strategy.registryStrategy_TryResolveType.
    rewrite Hr, Hl. reflexivity.
  - intros ty Hmiss.
    unfold strategy.namerStrategy_TryResolveType,
      strategy.registryStrategy_TryResolveType, strategy.TryResolveType.
    destruct (registry_at h reg) as [r |] eqn:Hr.
    + specialize (Hmiss r eq_refl).
      destruct (registry.Lookup (Some ty) r) as [n ok]. cbn in Hmiss.
      subst ok.
      destruct (strategy.byType (Some ty) cfg cache). reflexivity.
    + destruct (strategy.byType (Some ty) cfg cache). reflexivity.
Qed.

Lemma default_chain_order_witness :
  let user := TOther "user" "dirpx.dev/shop" in
  let r := (registry.Register (Some user) "domain.user"
              (registry.New DefaultConfig)).2 in
  let h := (alloc_registry r empty_heap).2 in
  let w := {| heap_of := h; typeNameCache := ∅ |} in
  let c := chain_of (default_chain (Some 0%nat)) in
  resolver.Resolve c (Some (strategy.mkValue user (Some "custom.user")))
    DefaultConfig w = ("custom.user", w) /\
  resolver.Resolve c (Some (strategy.mkValue (wrap Ptr user) None))
    DefaultConfig w = ("domain.user", w) /\
  (resolver.ResolveType c (Some (TOther "order" "dirpx.dev/shop"))
     DefaultConfig w).1 = "shop.order".
Proof.
  intros user r h w c.
  destruct (default_chain_order (Some 0%nat) DefaultConfig w)
    as (_ & _ & Hnamer & Hvalue & Hfound & Hmiss).
  split; [| split].
  - apply Hnamer. reflexivity.
  - rewrite Hvalue by reflexivity.
    apply (Hfound (wrap Ptr user) r "domain.user"); reflexivity.
  - rewrite Hmiss; [reflexivity |].
    intros r' [= <-]. reflexivity.
Defined.

#[local] Arguments builder.BuildRegistry : simpl never.
#[local] Arguments builder.BuildResolver : simpl never.

Lemma Register_fold_ok (es : list registry.Entry) (r0 : registry.registry) :
  registry.registry_ok r0 ->
  registry.registry_ok
    (foldl (fun r e =>
              (registry.Register (Some (registry.Type_ e))
                 (registry.Name_ e) r).2) r0 es).
Proof.
  revert r0. induction es as [| e es IH]; intros r0 H; cbn [foldl].
  - exact H.
  - apply IH, Register_ok, H.
Qed.

Lemma BuildRegistry_fine (cfg : Config) (prev : option addr)
    (e : option string) (h : heap) :
  heap_fine h ->
  exists a' h',
    BuildRegistry cfg prev e h = (Some a', h') /\
    heap_fine h' /\
    is_Some (registries h' !! a') /\
    registries h ⊆ registries h' /\
    resolvers h' = resolvers h.
Proof.
  intros [Hok Hregs]. unfold BuildRegistry.
  match goal with
  | |- context [alloc_registry ?r' h] =>
      pose proof (alloc_registry_spec r' h Hok) as Hal;
      assert (Hr' : registry.registry_ok r');
      [| destruct (alloc_registry r' h) as [a' h']; exists a', h' ]
  end.
  { destruct prev as [a |]; [| apply New_ok].
    apply Register_fold_ok, New_ok. }
  destruct Hal as (_ & Hfree & Hnew & Hres & Hok' & [Hext _]).
  split; [reflexivity |]. split; [split; [exact Hok' |] |].
  - intros a r. rewrite Hnew. destruct (decide (a' = a)) as [<- | Hne].
    + rewrite lookup_insert_eq. intros [= <-]. exact Hr'.
    + rewrite lookup_insert_ne by exact Hne. apply Hregs.
  - split; [rewrite Hnew, lookup_insert_eq; by eexists |].
    split; [exact Hext | exact Hres].
Qed.

Lemma BuildResolver_fine (cfg : Config) (reg prev : option addr)
    (e : option string) (h : heap) :
  heap_fine h ->
  exists x h',
    BuildResolver cfg reg prev e h = (Some x, h') /\
    heap_fine h' /\
    resolvers h' !! x = Some (default_chain reg) /\
    registries h' = registries h.
Proof.
  intros [Hok Hregs]. unfold BuildResolver.
  pose proof (alloc_resolver_spec (default_chain reg) h Hok) as Hal.
  fold (default_chain reg).
  destruct (alloc_resolver (default_chain reg) h) as [x h'].
  destruct Hal as (_ & _ & Hnew & Hsame & Hok' & _).
  exists x, h'. split; [reflexivity |].
  split; [split; [exact Hok' | rewrite Hsame; exact Hregs] |].
  split; [rewrite Hnew; apply lookup_insert_eq | exact Hsame].
Qed.

Lemma settled_intro (c : Config) (e : option string) (a x : addr) (pg : bool)
    (old : list (rfx.state addr addr string heap)) (h : heap)
    (k : list (rfx.call addr addr string heap))
    (cache : gmap strategy.cacheKey string) :
  heap_fine h ->
  is_Some (registries h !! a) ->
  resolvers h !! x = Some (default_chain (Some a)) ->
  settled
    {| machine_of :=
         {| st := {| cfg := c; ext := e; reg := Some a; res := Some x;
                     bld := New; preg := pg; pres := false |};
            older := old; world := h; calls := k |};
       cache_of := cache |}.
Proof.
  intros [Hok Hregs] Ha Hx. unfold settled. cbn.
  split; [reflexivity |]. split; [reflexivity |]. split; [exact Hok |].
  split; [exact Hregs |]. exists a, x. repeat split; assumption.
Qed.

Ltac build_layers :=
  repeat match goal with
  | |- context [BuildRegistry ?c ?p ?e ?h] =>
      let a := fresh "a" in let h' := fresh "h" in
      let Heq := fresh "Heq" in let Hf := fresh "Hfine" in
      let Ha := fresh "Ha" in let Hs := fresh "Hsub" in
      let Hr := fresh "Hres" in
      destruct (BuildRegistry_fine c p e h ltac:(assumption))
        as (a & h' & Heq & Hf & Ha & Hs & Hr);
      rewrite Heq; cbn -[BuildRegistry BuildResolver]
  | |- context [BuildResolver ?c ?r ?p ?e ?h] =>
      let x := fresh "x" in let h' := fresh "h" in
      let Heq := fresh "Heq" in let Hf := fresh "Hfine" in
      let Hx := fresh "Hx" in let Hr := fresh "Hregs" in
      destruct (BuildResolver_fine c r p e h ltac:(assumption))
        as (x & h' & Heq & Hf & Hx & Hr);
      rewrite Heq; cbn -[BuildRegistry BuildResolver]
  end.

(** The writers of [plain_write] keep the process settled. *)
Lemma write_settled (o : rfx.op addr addr string heap) (p : process) :
  settled p ->
  plain_write (world (machine_of p)) o ->
  settled (write o p).
Proof.
  destruct p as [[s old h k] cache]; destruct s as [c e r x b pg ps].
  unfold settled at 1. cbn [machine_of st world bld pres reg res].
  intros (-> & -> & Hok & Hregs & a & x0 & -> & -> & Ha & Hx) Ho.
  assert (Hfine : heap_fine h) by (split; assumption).
  unfold write. cbn [machine_of cache_of].
  destruct o as [c' e' r' x' b' | c' | r' | x' | b' | e' | | | |];
    cbn in Ho;
    repeat match goal with
    | H : _ /\ _ |- _ => destruct H
    | H : _ \/ _ |- _ => destruct H
    end; subst; try contradiction;
    try destruct r' as [r' |]; try destruct pg;
    unfold_run; cbn -[BuildRegistry BuildResolver];
    build_layers;
    apply settled_intro;
    first [ assumption
          | congruence
          | match goal with H : forall a, Some _ = Some a -> _ |- _ =>
              first [ rewrite ?Hregs0 | idtac ]; apply H; reflexivity end
          | idtac ].
Qed.

(** The default chain reads the heap and never changes it. *)
Lemma default_chain_keeps_heap (reg : option addr) (cfg : Config) (w : store) :
  (forall v,
      heap_of (resolver.Resolve (chain_of (default_chain reg)) v cfg w).2
      = heap_of w) /\
  (forall ty,
      heap_of (resolver.ResolveType (chain_of (default_chain reg)) ty cfg w).2
      = heap_of w).
Proof.
  destruct w as [h cache]. rewrite chain_of_default.
  unfold resolver.Resolve, resolver.ResolveType.
  cbn [resolver.strats resolver.resolve_from resolver.resolveType_from denote
       resolver.TryResolve resolver.TryResolveType heap_of typeNameCache].
  split.
  - intros v.
    destruct (strategy.namerStrategy_TryResolve v cfg) as [n [|]];
      [reflexivity |].
    destruct (strategy.registryStrategy_TryResolve (registry_at h reg) v cfg)
      as [n' [|]]; [reflexivity |].
    destruct (strategy.TryResolve v cfg cache) as [[n'' [|]] c'']; reflexivity.
  - intros ty.
    destruct (strategy.namerStrategy_TryResolveType ty cfg) as [n [|]];
      [reflexivity |].
    destruct (strategy.registryStrategy_TryResolveType (registry_at h reg) ty cfg)
      as [n' [|]]; [reflexivity |].
    destruct (strategy.TryResolveType ty cfg cache) as [[n'' [|]] c''];
      reflexivity.
Qed.

Lemma settled_chain (p : process) :
  settled p ->
  exists a r,
    reg (st (machine_of p)) = Some a /\
    registries (world (machine_of p)) !! a = Some r /\
    registry.registry_ok r /\
    current_chain p = Some (default_chain (Some a)).
Proof.
  intros (_ & _ & _ & Hregs & a & x & Ha & Hx & [r Hr] & Hc).
  exists a, r. split; [exact Ha |]. split; [exact Hr |].
  split; [exact (Hregs a r Hr) |].
  unfold current_chain. rewrite Hx. exact Hc.
Qed.

Lemma with_store_same_heap (p : process) (w : store) :
  heap_of w = world (machine_of p) ->
  settled p -> settled (with_store p w).
Proof.
  destruct p as [[s old h k] cache]. destruct w as [h' cache'].
  cbn. intros ->. exact id.
Qed.

Lemma Entity_settled (v : option strategy.value) (p : process)
    (name : string) (p' : process) :
  settled p -> Entity v p = Some (name, p') -> settled p'.
Proof.
  intros Hs. destruct (settled_chain p Hs) as (a & r & _ & _ & _ & Hc).
  unfold Entity. rewrite Hc.
  pose proof (proj1 (default_chain_keeps_heap (Some a)
                       (cfg (st (machine_of p))) (store_of p)) v) as Hh.
  destruct (resolver.Resolve _ v _ _) as [n w]. intros [= _ <-].
  apply with_store_same_heap; [exact Hh | exact Hs].
Qed.

Lemma EntityType_settled (ty : option rtype) (p : process)
    (name : string) (p' : process) :
  settled p -> EntityType ty p = Some (name, p') -> settled p'.
Proof.
  intros Hs. destruct (settled_chain p Hs) as (a & r & _ & _ & _ & Hc).
  unfold EntityType. rewrite Hc.
  pose proof (proj2 (default_chain_keeps_heap (Some a)
                       (cfg (st (machine_of p))) (store_of p)) ty) as Hh.
  destruct (resolver.ResolveType _ ty _ _) as [n w]. intros [= _ <-].
  apply with_store_same_heap; [exact Hh | exact Hs].
Qed.

Lemma RegisterType_settled (ty : option rtype) (name : string) (p : process)
    (e : option error) (p' : process) :
  settled p -> RegisterType ty name p = Some (e, p') -> settled p'.
Proof.
  destruct p as [[s old h k] cache]; destruct s as [c ex r x b pg ps].
  unfold settled at 1. cbn [machine_of st world bld pres reg res].
  intros (-> & -> & [Hokr Hokx] & Hregs & a & x0 & -> & -> & [r0 Ha] & Hx).
  unfold RegisterType. cbn [machine_of st world reg cache_of]. rewrite Ha.
  pose proof (Register_ok ty name r0 (Hregs a r0 Ha)) as Hr'.
  destruct (registry.Register ty name r0) as [e' r']. cbn [snd] in Hr'.
  intros [= _ <-]. unfold settled. cbn.
  split; [reflexivity |]. split; [reflexivity |]. split; [split |].
  - intros a' Ha'. apply Hokr. cbn [registries] in Ha'.
    apply lookup_insert_is_Some in Ha'.
    destruct Ha' as [<- | [_ Ha']]; [by eexists | exact Ha'].
  - exact Hokx.
  - split.
    + intros a' r1. destruct (decide (a = a')) as [<- | Hne].
      * rewrite lookup_insert_eq. intros [= <-]. exact Hr'.
      * rewrite lookup_insert_ne by exact Hne. apply Hregs.
    + exists a, x0. split; [reflexivity |]. split; [reflexivity |].
      split; [rewrite lookup_insert_eq; by eexists | exact Hx].
Qed.

Lemma start_settled : settled process.start.
Proof.
  unfold process.start, builder.start, init.
  cbn -[BuildRegistry BuildResolver].
  assert (Hfine : heap_fine empty_heap).
  { split; [apply heap_ok_empty |]. intros a r H.
    cbn in H. rewrite lookup_empty in H. discriminate. }
  build_layers. apply settled_intro; try assumption.
  match goal with H : registries _ = registries _ |- _ => rewrite H end.
  assumption.
Qed.

Lemma reachable_settled (p : process) : reachable p -> settled p.
Proof.
  induction 1;
    eauto using start_settled, write_settled, RegisterType_settled,
      Entity_settled, EntityType_settled.
Qed.

(** The default chain, strategy by strategy: the namer, then the registry,
    then the reflective fallback. *)
Lemma ResolveType_default (reg : option addr) (ty : option rtype)
    (cfg : Config) (w : store) :
  resolver.ResolveType (chain_of (default_chain reg)) ty cfg w =
    match strategy.registryStrategy_TryResolveType
            (registry_at (heap_of w) reg) ty cfg with
    | (n, true) => (n, w)
    | (_, false) =>
        match ty with
        | None => ("", w)
        | Some _ =>
            ((strategy.byType ty cfg (typeNameCache w)).1,
             {| heap_of := heap_of w;
                typeNameCache :=
                  (strategy.byType ty cfg (typeNameCache w)).2 |})
        end
    end.
Proof.
  destruct w as [h cache]. rewrite chain_of_default.
  unfold resolver.ResolveType.
  cbn [resolver.strats resolver.resolveType_from denote
       resolver.TryResolveType heap_of typeNameCache].
  unfold strategy.namerStrategy_TryResolveType.
  destruct (strategy.registryStrategy_TryResolveType _ ty cfg) as [n [|]];
    [reflexivity |].
  unfold strategy.TryResolveType. destruct ty as [ty |]; [| reflexivity].
  destruct (strategy.byType (Some ty) cfg cache). reflexivity.
Qed.

Lemma Resolve_default (reg : option addr) (v : strategy.value)
    (cfg : Config) (w : store) :
  resolver.Resolve (chain_of (default_chain reg)) (Some v) cfg w =
    match strategy.EntityName v with
    | Some n => (n, w)
    | None =>
        resolver.ResolveType (chain_of (default_chain reg))
          (Some (strategy.TypeOf v)) cfg w
    end.
Proof.
  destruct w as [h cache]. rewrite chain_of_default.
  unfold resolver.Resolve, resolver.ResolveType.
  cbn [resolver.strats resolver.resolve_from resolver.resolveType_from denote
       resolver.TryResolve resolver.TryResolveType heap_of typeNameCache].
  unfold strategy.namerStrategy_TryResolve,
    strategy.namerStrategy_TryResolveType.
  destruct (strategy.EntityName v); reflexivity.
Qed.

Lemma byType_again (ty : option rtype) (cfg : Config) (c : strategy.cache) :
  strategy.byType ty cfg (strategy.byType ty cfg c).2 = strategy.byType ty cfg c.
Proof.
  destruct (c !! strategy.key_of ty cfg) as [v |] eqn:Hk.
  - rewrite (byType_hit _ _ _ _ Hk). cbn [snd]. apply byType_hit, Hk.
  - rewrite (byType_miss _ _ _ Hk). cbn [snd].
    apply byType_hit, lookup_insert_eq.
Qed.

(** [EntityType] in a settled process, by what the registry of the snapshot
    answers. *)
Lemma EntityType_settled_eq (ty : option rtype) (p : process) :
  settled p ->
  exists r,
    current_registry p = Some r /\
    EntityType ty p =
      Some
        match ty, registry.Lookup ty r with
        | None, _ => ("", p)
        | Some _, (n, true) => (n, p)
        | Some _, (_, false) =>
            ((strategy.byType ty (cfg (st (machine_of p))) (cache_of p)).1,
             {| machine_of := machine_of p;
                cache_of :=
                  (strategy.byType ty (cfg (st (machine_of p)))
                     (cache_of p)).2 |})
        end.
Proof.
  intros Hs. destruct (settled_chain p Hs) as (a & r & Ha & Hr & _ & Hc).
  exists r. unfold current_registry, EntityType. rewrite Ha, Hc.
  split; [exact Hr |].
  rewrite ResolveType_default.
  destruct p as [[s old h k] cache].
  cbn [store_of heap_of typeNameCache machine_of cache_of world st
       registry_at] in *.
  rewrite Hr. destruct ty as [ty |]; [| reflexivity].
  cbn [strategy.registryStrategy_TryResolveType].
  destruct (registry.Lookup (Some ty) r) as [n [|]]; reflexivity.
Qed.

Lemma Entity_settled_eq (v : strategy.value) (p : process) :
  settled p ->
  Entity (Some v) p =
    match strategy.EntityName v with
    | Some n => Some (n, p)
    | None => EntityType (Some (strategy.TypeOf v)) p
    end.
Proof.
  intros Hs. destruct (settled_chain p Hs) as (a & r & Ha & Hr & _ & Hc).
  unfold Entity, EntityType. rewrite Hc, Resolve_default.
  destruct (strategy.EntityName v); [| reflexivity].
  rewrite with_store_id. reflexivity.
Qed.

Lemma Register_nil_Lookup (T : rtype) (x : string) (r r' : registry.registry) :
  registry.Register (Some T) x r = (None, r') ->
  registry.Lookup (Some T) r' = (x, true).
Proof.
  intros H.
  pose proof (Register_cfg (Some T) x r) as Hcfg. rewrite H in Hcfg.
  cbn [snd] in Hcfg.
  destruct (Register_cases (Some T) x r)
    as [[Hnil _] | [(_ & _ & Hr) | (_ & _ & [(e & _ & Hr) | (b & Hn & Hb)])]];
    try discriminate Hnil; try (rewrite Hr in H; discriminate H).
  apply (Lookup_bound T b); [rewrite Hcfg; exact Hn |].
  destruct Hb as [[Hb Hr] | [(old & _ & _ & Hr) | [_ Hr]]];
    rewrite Hr in H; try discriminate H; injection H as <-.
  - exact Hb.
  - cbn. apply lookup_insert_eq.
Qed.

(** X25. In a process that starts from [init] with the default builder and
    whose writers inject no resolver, do not pin the resolver, bring no
    other builder and inject only registries that exist, the snapshot
    always holds a registry and a resolver, the resolver is the chain
    namer, registry, reflect over the registry of the same snapshot, and
    [Entity], [EntityType] and [RegisterType] never panic on a nil layer. *)
Theorem default_process_layers (p : process) :
  reachable p ->
  (exists a r,
      reg (st (machine_of p)) = Some a /\
      registries (world (machine_of p)) !! a = Some r /\
      current_chain p = Some (default_chain (Some a))) /\
  (forall v ty name,
      is_Some (Entity v p) /\ is_Some (EntityType ty p) /\
      is_Some (RegisterType ty name p)).
Proof.
  intros Hp. apply reachable_settled in Hp.
  destruct (settled_chain p Hp) as (a & r & Ha & Hr & _ & Hc).
  split; [exists a, r; repeat split; assumption |].
  intros v ty name. unfold Entity, EntityType, RegisterType.
  rewrite Hc, Ha, Hr.
  destruct (resolver.Resolve _ v _ _), (resolver.ResolveType _ ty _ _),
    (registry.Register ty name r).
  repeat split; by eexists.
Qed.

Lemma default_process_layers_witness :
  let p := write (OpSetRegistry None)
             (write (OpSetConfig (mkConfig false 3 false)) process.start) in
  is_Some (EntityType (Some (TOther "user" "pkg")) p) /\
  is_Some (RegisterType (Some (TOther "user" "pkg")) "domain.user" p).
Proof.
  intros p.
  assert (Hp : reachable p).
  { apply reach_write; [apply reach_write; [apply reach_start | exact I] |].
    intros a [=]. }
  destruct (default_process_layers p Hp) as [_ H].
  destruct (H None (Some (TOther "user" "pkg")) "domain.user") as (_ & H1 & H2).
  split; assumption.
Defined.

(** X26. Round trip through the process: after a [RegisterType(T, x)] that
    returned nil, [EntityType(T)] returns [x]; [Entity(v)] returns [x] for a
    value of type [T] that has no [EntityName] method, and the name of
    [EntityName] for a value that has one, whatever is registered.  None of
    these calls changes the process. *)
Theorem RegisterType_then_Entity (T : rtype) (x : string) (p p' : process) :
  reachable p ->
  RegisterType (Some T) x p = Some (None, p') ->
  EntityType (Some T) p' = Some (x, p') /\
  (forall v,
      strategy.TypeOf v = T -> strategy.EntityName v = None ->
      Entity (Some v) p' = Some (x, p')) /\
  (forall v n,
      strategy.EntityName v = Some n -> Entity (Some v) p' = Some (n, p')).
Proof.
  intros Hp H. apply reachable_settled in Hp.
  pose proof (RegisterType_settled _ _ _ _ _ Hp H) as Hs'.
  assert (HT : EntityType (Some T) p' = Some (x, p')).
  { destruct (EntityType_settled_eq (Some T) p' Hs') as (r' & Hcur & ->).
    enough (Hl : registry.Lookup (Some T) r' = (x, true))
      by (rewrite Hl; reflexivity).
    destruct p as [[s old h k] cache]. unfold RegisterType in H.
    cbn [machine_of st world cache_of] in H.
    destruct (reg s) as [a |] eqn:Ha; [| discriminate H].
    destruct (registries h !! a) as [r0 |] eqn:Hr0; [| discriminate H].
    destruct (registry.Register (Some T) x r0) as [e r1] eqn:HR.
    injection H as -> <-.
    unfold current_registry in Hcur.
    cbn [machine_of st world with_world] in Hcur. rewrite Ha in Hcur.
    cbn [registry_at registries] in Hcur.
    rewrite lookup_insert_eq in Hcur. injection Hcur as <-.
    exact (Register_nil_Lookup T x r0 r1 HR). }
  split; [exact HT |]. split.
  - intros v <- Hn. rewrite (Entity_settled_eq v p' Hs'), Hn. exact HT.
  - intros v n Hn. rewrite (Entity_settled_eq v p' Hs'), Hn. reflexivity.
Qed.

Lemma start_registry :
  current_registry process.start = Some (registry.New DefaultConfig).
Proof. vm_compute. reflexivity. Qed.

(** [RegisterType] right after [init]. *)
Lemma RegisterType_start (ty : option rtype) (x : string) :
  exists p',
    RegisterType ty x process.start
      = Some ((registry.Register ty x (registry.New DefaultConfig)).1, p') /\
    current_registry p'
      = Some (registry.Register ty x (registry.New DefaultConfig)).2.
Proof.
  pose proof start_registry as Hr. unfold current_registry in Hr.
  unfold RegisterType.
  destruct (reg (st (machine_of process.start))) as [a |] eqn:Ha;
    [| discriminate Hr].
  cbn [registry_at] in Hr. rewrite Hr.
  destruct (registry.Register ty x (registry.New DefaultConfig)) as [e r'].
  eexists. split; [reflexivity |].
  unfold current_registry. cbn [machine_of with_world st world]. rewrite Ha.
  cbn [registry_at registries fst snd]. apply lookup_insert_eq.
Qed.

Lemma RegisterType_then_Entity_witness :
  let user := TOther "user" "dirpx.dev/shop" in
  exists p',
    RegisterType (Some (wrap Ptr user)) "domain.user" process.start
      = Some (None, p') /\
    EntityType (Some (wrap Ptr user)) p' = Some ("domain.user", p') /\
    Entity (Some (strategy.mkValue (wrap Ptr user) (Some "custom.user"))) p'
      = Some ("custom.user", p').
Proof.
  intros user.
  destruct (RegisterType_start (Some (wrap Ptr user)) "domain.user")
    as (p' & H & _).
  change (registry.Register (Some (wrap Ptr user)) "domain.user"
            (registry.New DefaultConfig)).1 with (@None error) in H.
  exists p'. split; [exact H |].
  destruct (RegisterType_then_Entity (wrap Ptr user) "domain.user"
              process.start p' reach_start H) as (H1 & _ & H3).
  split; [exact H1 | apply H3; reflexivity].
Defined.

Lemma BuildRegistry_plain (cfg : Config) (a : addr) (e : option string)
    (h : heap) (r : registry.registry) :
  heap_fine h ->
  registries h !! a = Some r ->
  registry.plain_keys r ->
  exists a' h' r',
    BuildRegistry cfg (Some a) e h = (Some a', h') /\
    heap_fine h' /\
    registries h' !! a' = Some r' /\
    resolvers h' = resolvers h /\
    registry.m r' = registry.m r.
Proof.
  intros Hfine Ha Hplain.
  destruct (BuildRegistry_fine cfg (Some a) e h Hfine)
    as (a' & h' & Heq & Hfine' & [r' Hr'] & _ & Hres).
  exists a', h', r'. split; [exact Heq |]. split; [exact Hfine' |].
  split; [exact Hr' |]. split; [exact Hres |].
  destruct Hfine as [_ Hregs]. destruct (Hregs a r Ha) as (_ & Hkeys & _).
  set (R := foldl (fun r e =>
                     (registry.Register (Some (registry.Type_ e))
                        (registry.Name_ e) r).2)
                  (registry.New cfg) (registry.Entries r)).
  assert (Hcomp : BuildRegistry cfg (Some a) e h
                  = (Some (next_registry h), (alloc_registry R h).2)).
  { unfold BuildRegistry, entries_of. rewrite Ha. reflexivity. }
  assert (Hm : registry.m R = registry.m r).
  { subst R. unfold registry.Entries.
    pose proof (migrate_entries (map_to_list (registry.m r))
                  (NoDup_fst_map_to_list _)) as Hmig.
    cbn zeta in Hmig.
    destruct (Hmig (fun k x H =>
                      let H' := proj1 (elem_of_map_to_list _ _ _) H in
                      conj (Hplain k x H') (Hkeys k x H'))
                   (registry.New cfg))
      as (_ & Hm & _).
    { intros k _. apply lookup_empty. }
    rewrite Hm. cbn. rewrite (right_id_L ∅ (∪)). apply list_to_map_to_list. }
  clearbody R. rewrite Hcomp in Heq. injection Heq as <- <-.
  cbn [alloc_registry snd registries] in Hr'.
  rewrite lookup_insert_eq in Hr'. injection Hr' as <-. exact Hm.
Qed.

(** X27. Registrations of plain types survive a change of config: when every
    type registered in the registry of the snapshot is of a kind that is
    not unwrapped, the registry of the snapshot after [SetConfig(c)] has the
    same entries (it is the same object when the registry is pinned, a
    migrated one otherwise), and [EntityType] still returns the registered
    name of each of these types, under any new config. *)
Theorem registrations_survive_SetConfig
    (c' : Config) (p : process) (r : registry.registry) :
  reachable p ->
  current_registry p = Some r ->
  registry.plain_keys r ->
  exists r',
    current_registry (write (OpSetConfig c') p) = Some r' /\
    registry.m r' = registry.m r /\
    forall T x,
      registry.m r !! T = Some x ->
      EntityType (Some T) (write (OpSetConfig c') p)
        = Some (x, write (OpSetConfig c') p).
Proof.
  intros Hp Hcur Hplain. apply reachable_settled in Hp.
  pose proof (write_settled (OpSetConfig c') p Hp I) as Hs'.
  assert (Hkeys : forall k x, registry.m r !! k = Some x -> named k = true).
  { destruct Hp as (_ & _ & _ & Hregs & a & _ & Ha & _).
    unfold current_registry in Hcur. rewrite Ha in Hcur.
    intros k x Hk. exact (proj1 (proj1 (proj2 (Hregs a r Hcur)) k x Hk)). }
  assert (H1 : exists r',
             current_registry (write (OpSetConfig c') p) = Some r' /\
             registry.m r' = registry.m r).
  { clear Hs'. revert Hp Hcur.
    destruct p as [[s old h k] cache]; destruct s as [c e g x b pg ps].
    unfold settled, current_registry.
    cbn [machine_of st world bld pres reg res registry_at].
    intros (-> & -> & Hok & Hregs & a & x0 & -> & -> & Ha & Hx) Hcur.
    assert (Hfine : heap_fine h) by (split; assumption).
    unfold write. cbn [machine_of cache_of].
    destruct pg; unfold_run; cbn -[BuildRegistry BuildResolver].
    - build_layers. exists r. split; [| reflexivity].
      match goal with H : registries _ = registries _ |- _ => rewrite H end.
      exact Hcur.
    - destruct (BuildRegistry_plain c' a e h r Hfine Hcur Hplain)
        as (a' & h' & r' & Heq & Hfine' & Hr' & _ & Hm).
      rewrite Heq. cbn -[BuildRegistry BuildResolver].
      build_layers. exists r'. split; [| exact Hm].
      match goal with H : registries _ = registries _ |- _ => rewrite H end.
      exact Hr'. }
  destruct H1 as (r' & Hcur' & Hm). exists r'.
  split; [exact Hcur' |]. split; [exact Hm |].
  intros T x HT.
  destruct (EntityType_settled_eq (Some T) _ Hs') as (r'' & Hcur'' & ->).
  rewrite Hcur' in Hcur''. injection Hcur'' as <-.
  rewrite (Lookup_bound T T x r'); [reflexivity | | rewrite Hm; exact HT].
  apply named_plain_normalizes; [exact (Hplain T x HT) | exact (Hkeys T x HT)].
Qed.

Lemma registrations_survive_SetConfig_witness :
  let user := TOther "user" "dirpx.dev/shop" in
  exists p,
    RegisterType (Some (wrap Ptr user)) "domain.user" process.start
      = Some (None, p) /\
    EntityType (Some user) (write (OpSetConfig (mkConfig false 1 false)) p)
      = Some ("domain.user", write (OpSetConfig (mkConfig false 1 false)) p).
Proof.
  intros user.
  destruct (RegisterType_start (Some (wrap Ptr user)) "domain.user")
    as (p & H & Hcur).
  pose proof (Register_unbound (wrap Ptr user) user "domain.user"
                (registry.New DefaultConfig) eq_refl
                ltac:(discriminate) (lookup_empty _)) as HR.
  rewrite HR in H, Hcur. cbn [fst snd] in H, Hcur.
  exists p. split; [exact H |].
  destruct (registrations_survive_SetConfig (mkConfig false 1 false) p _
              (reach_RegisterType _ _ _ _ _ reach_start H) Hcur)
    as (r' & _ & _ & Hall).
  - intros k x Hk. cbn [registry.m registry.New] in Hk.
    apply lookup_insert_Some in Hk as [[<- _] | [_ Hk]]; [reflexivity |].
    rewrite lookup_empty in Hk. discriminate Hk.
  - apply Hall. cbn [registry.m]. apply lookup_insert_eq.
Defined.

Lemma Resolve_default_nil (reg : option addr) (cfg : Config) (w : store) :
  resolver.Resolve (chain_of (default_chain reg)) None cfg w = ("", w).
Proof. destruct w. reflexivity. Qed.

(** X28. Resolution never writes the snapshot and is repeatable: in a
    process of the default builder, a call of [Entity] or [EntityType]
    leaves the snapshot and the heap as they were (only the cache of the
    fallback may grow), and the same call made again returns the same name
    and changes nothing any more. *)
Theorem Entity_repeatable (p : process) :
  reachable p ->
  (forall ty n p',
      EntityType ty p = Some (n, p') ->
      machine_of p' = machine_of p /\ EntityType ty p' = Some (n, p')) /\
  (forall v n p',
      Entity v p = Some (n, p') ->
      machine_of p' = machine_of p /\ Entity v p' = Some (n, p')).
Proof.
  intros Hp. apply reachable_settled in Hp.
  assert (HT : forall ty n p',
             EntityType ty p = Some (n, p') ->
             machine_of p' = machine_of p /\ EntityType ty p' = Some (n, p')).
  { intros ty n p' H.
    pose proof (EntityType_settled ty p n p' Hp H) as Hs'.
    destruct (EntityType_settled_eq ty p Hp) as (r & Hcur & Heq).
    rewrite Heq in H.
    destruct ty as [ty |]; [| injection H as <- <-; split; [reflexivity | exact Heq]].
    destruct (registry.Lookup (Some ty) r) as [n0 [|]] eqn:Hl.
    - injection H as <- <-. split; [reflexivity | exact Heq].
    - injection H as <- <-. split; [reflexivity |].
      destruct (EntityType_settled_eq (Some ty) _ Hs') as (r2 & Hcur2 & ->).
      unfold current_registry in Hcur, Hcur2. cbn [machine_of] in Hcur2.
      rewrite Hcur in Hcur2. injection Hcur2 as <-. rewrite Hl.
      cbn [machine_of cache_of]. rewrite byType_again. reflexivity. }
  split; [exact HT |].
  intros [v |] n p' H.
  - rewrite (Entity_settled_eq v p Hp) in H.
    pose proof (Entity_settled_eq v) as Heq.
    destruct (strategy.EntityName v) as [n0 |] eqn:Hn.
    + injection H as <- <-. split; [reflexivity |]. apply (Heq p Hp).
    + destruct (HT _ _ _ H) as [Hm H']. split; [exact Hm |].
      rewrite (Heq p' (EntityType_settled _ _ _ _ Hp H)). exact H'.
  - destruct (settled_chain p Hp) as (a & r & _ & _ & _ & Hc).
    unfold Entity in H. rewrite Hc, Resolve_default_nil, with_store_id in H.
    injection H as <- <-. split; [reflexivity |].
    unfold Entity. rewrite Hc, Resolve_default_nil, with_store_id. reflexivity.
Qed.

Lemma Entity_repeatable_witness :
  let order := TOther "order" "dirpx.dev/shop" in
  exists p',
    EntityType (Some (wrap Slice order)) process.start
      = Some ("shop.order", p') /\
    machine_of p' = machine_of process.start /\
    EntityType (Some (wrap Slice order)) p' = Some ("shop.order", p').
Proof.
  intros order.
  assert (H : exists p',
             EntityType (Some (wrap Slice order)) process.start
               = Some ("shop.order", p')).
  { destruct (EntityType_settled_eq (Some (wrap Slice order)) process.start
                start_settled) as (r & Hcur & ->).
    rewrite start_registry in Hcur. injection Hcur as <-.
    eexists. reflexivity. }
  destruct H as [p' H]. exists p'. split; [exact H |].
  exact (proj1 (Entity_repeatable process.start reach_start) _ _ _ H).
Defined.

End ProcessProperties.
